(** * Snapshot aggregation and report ordering of the trend radar pipeline

    A shallow embedding of the snapshot store, the aggregator and the
    report ordering code of [trend_radar_langgraph.py]
    ([SpiderNode.__call__] and [render_langgraph_html_report]), with the
    properties of its specification stated and proved on the embedding.
    Further sections cover the code around them: the environment and
    the configuration read at import time, the HTML escaping, the other
    nodes of the graph, and the scraper and the topic selection of
    [trend_radar_v2.py].

    Conventions of the embedding.
    - A Python dict holding a news item or a topic is a record; a key that
      is absent and a key bound to [None] both read as [None] through
      [dict.get], so a field is an [option].
    - JSON numbers that the code only compares ([rank], [hot_value]) are
      integers; [heat_score], which the code converts with [float], is a
      rational.  No arithmetic is done on either, only comparisons.
    - A dict whose iteration order is observable ([aggregated],
      [platforms]) is an insertion-ordered association list; a dict that
      is only looked up ([topics_by_category], [platform_index]) is a
      [gmap].
    - Exceptions are the [Raise] results of a small error monad;
      [try ... except Exception] is a match on the result.
    - Items and topics are well typed: a field holds a value of its
      type or nothing.  A file or a response that is not is one that
      cannot be read. *)

From Stdlib Require Import ZArith QArith Lia Sorted Permutation Ascii.
From stdpp Require Import base option list strings gmap.

Local Open Scope string_scope.

(** ** Python values and exceptions *)

Module Py.

Inductive exn : Set :=
| TypeError
| ValueError
| OSError.

Inductive result (A : Type) : Type :=
| Ok (a : A)
| Raise (e : exn).
Global Arguments Ok {A} a.
Global Arguments Raise {A} e.

Global Instance result_ret : MRet result := fun _ a => Ok a.
Global Instance result_bind : MBind result := fun _ _ f m =>
  match m with
  | Ok a => f a
  | Raise e => Raise e
  end.

(** [try: body except Exception: handler] *)
Definition try_except {A} (body : result A) (handler : exn -> result A)
  : result A :=
  match body with
  | Ok a => Ok a
  | Raise e => handler e
  end.

(** [o or d] for an optional string [o] and a string default [d]:
    [None] and the empty string are falsy. *)
Definition str_or (o : option string) (d : string) : string :=
  match o with
  | Some s => if String.eqb s "" then d else s
  | None => d
  end.

(** [o or d] for an optional integer: [None] and [0] are falsy. *)
Definition int_or (o : option Z) (d : Z) : Z :=
  match o with
  | Some z => if Z.eqb z 0 then d else z
  | None => d
  end.

(** A key of a JSON object as [dict.get(k, default)] sees it. *)
Inductive field (A : Type) : Type :=
| Absent
| Null
| Val (a : A).
Global Arguments Absent {A}.
Global Arguments Null {A}.
Global Arguments Val {A} a.

(** [d.get(k)] *)
Definition get {A} (f : field A) : option A :=
  match f with
  | Val a => Some a
  | _ => None
  end.

(** [d.get(k, default)]: the default is used only for an absent key. *)
Definition get_default {A} (f : field A) (d : A) : option A :=
  match f with
  | Absent => Some d
  | Null => None
  | Val a => Some a
  end.

(** *** [datetime]

    A datetime is a wall-clock reading in whole seconds together with
    its [tzinfo]: [None] for a naive value, [Some off] for an aware one
    with UTC offset [off] seconds. *)
Record datetime : Set := mkDatetime { wall : Z; tzinfo : option Z }.

(** [a < b] on datetimes.  Two naive values compare by wall clock, two
    aware values by instant; comparing a naive with an aware value
    raises [TypeError]. *)
Definition dt_lt (a b : datetime) : result bool :=
  match tzinfo a, tzinfo b with
  | None, None => Ok (wall a <? wall b)%Z
  | Some oa, Some ob => Ok (wall a - oa <? wall b - ob)%Z
  | _, _ => Raise TypeError
  end.

(** [d - timedelta(hours=h)] keeps the [tzinfo]. *)
Definition sub_hours (d : datetime) (h : Z) : datetime :=
  {| wall := (wall d - h * 3600)%Z; tzinfo := tzinfo d |}.

(** [datetime.strptime(s, "%Y%m%d_%H%M%S")] on a string that parses to
    the wall-clock second [s]: the format has no [%z], the value is
    naive. *)
Definition strptime (s : Z) : datetime := {| wall := s; tzinfo := None |}.

End Py.
Import Py.

(** ** Data model *)

(** A news item: the dict built by the scraper and stored in snapshots. *)
Record Item : Set := mkItem {
  source_id : option string;
  source : option string;
  source_name : option string;
  title : option string;
  rank : option Z;
  url : option string;
  mobile_url : option string;
  hot_value : option Z
}.

Definition set_rank (r : option Z) (it : Item) : Item :=
  {| source_id := source_id it; source := source it;
     source_name := source_name it; title := title it; rank := r;
     url := url it; mobile_url := mobile_url it;
     hot_value := hot_value it |}.

Definition set_hot_value (h : option Z) (it : Item) : Item :=
  {| source_id := source_id it; source := source it;
     source_name := source_name it; title := title it; rank := rank it;
     url := url it; mobile_url := mobile_url it; hot_value := h |}.

Definition set_source (sid : string) (name : string) (it : Item) : Item :=
  {| source_id := Some sid; source := source it;
     source_name := Some name; title := title it; rank := rank it;
     url := url it; mobile_url := mobile_url it;
     hot_value := hot_value it |}.

Global Instance Item_eq_dec : EqDecision Item.
Proof. solve_decision. Defined.

(** ** Scraper: [SpiderNode.__call__], the fetch loop *)

(** One element of the ["items"] array of a platform response. *)
Record RawEntry : Set := mkRawEntry {
  raw_title : field string;
  raw_url : field string;
  raw_mobileUrl : field string;
  raw_hotValue : field Z
}.

(** What [fetch_data] and [json.loads] give for one platform: nothing
    ([fetch_data] returned [None] or an empty body), a body that
    [json.loads] or [data.get] rejects, or the ["items"] array.  An array
    element that is not a JSON object is [None]: calling [.get] on it
    raises. *)
Inductive Response : Set :=
| NoData
| BadBody
| Items (entries : list (option RawEntry)).

(** The body of [for idx, item in enumerate(top_items, 1)].  The first
    element that raises leaves the loop (the exception is caught by the
    enclosing [try]); the items appended before it stay in [news_list]. *)
Fixpoint append_entries (sid sname : string) (idx : Z)
    (top_items : list (option RawEntry)) : list Item :=
  match top_items with
  | [] => []
  | None :: _ => []
  | Some item :: rest =>
      {| source_id := Some sid;
         source := Some sname;
         source_name := Some sname;
         title := get (raw_title item);
         rank := Some idx;
         url := get_default (raw_url item) "";
         mobile_url := get_default (raw_mobileUrl item) "";
         hot_value := get_default (raw_hotValue item) 0%Z |}
      :: append_entries sid sname (idx + 1)%Z rest
  end.

Definition scrape_platform (sid sname : string) (r : Response) : list Item :=
  match r with
  | Items items => append_entries sid sname 1%Z (take 30 items)
  | NoData | BadBody => []
  end.

(** The whole fetch loop over [self.sources.items()]. *)
Definition scrape (sources : list (string * string))
    (fetch_data : string -> Response) : list Item :=
  flat_map (fun s => scrape_platform s.1 s.2 (fetch_data s.1)) sources.

(** ** Aggregator: the fold of [SpiderNode.__call__] *)

Abbreviation Key := (string * string)%type (only parsing).

(** [aggregated]: an insertion-ordered dict from key to stored record. *)
Abbreviation Agg := (list (Key * Item)) (only parsing).

Definition item_key (item : Item) : Key :=
  (str_or (source_id item) (str_or (source item) ""),
   str_or (title item) "").

(** [aggregated.get(key)] *)
Fixpoint agg_get (aggregated : Agg) (key : Key) : option Item :=
  match aggregated with
  | [] => None
  | (k, v) :: rest =>
      if decide (k = key) then Some v else agg_get rest key
  end.

(** [aggregated[key] = v]: a bound key keeps its position, a new key goes
    to the end. *)
Fixpoint agg_set (aggregated : Agg) (key : Key) (v : Item) : Agg :=
  match aggregated with
  | [] => [(key, v)]
  | (k, old) :: rest =>
      if decide (k = key) then (k, v) :: rest
      else (k, old) :: agg_set rest key v
  end.

(** [rank_new is not None and (rank_old is None or rank_new < rank_old)] *)
Definition rank_improves (rank_new rank_old : option Z) : bool :=
  match rank_new with
  | None => false
  | Some rn =>
      match rank_old with
      | None => true
      | Some ro => bool_decide (rn < ro)%Z
      end
  end.

(** [hot_new is not None and (hot_old is None or hot_new > hot_old)] *)
Definition hot_improves (hot_new hot_old : option Z) : bool :=
  match hot_new with
  | None => false
  | Some hn =>
      match hot_old with
      | None => true
      | Some ho => bool_decide (hn > ho)%Z
      end
  end.

(** The [else] branch of the loop body: the two in-place updates of the
    stored record. *)
Definition reconcile (existing item : Item) : Item :=
  let existing1 :=
    if rank_improves (rank item) (rank existing)
    then set_rank (rank item) existing else existing in
  if hot_improves (hot_value item) (hot_value existing1)
  then set_hot_value (hot_value item) existing1 else existing1.

(** The body of [for item in items]. *)
Definition fold_item (aggregated : Agg) (item : Item) : Agg :=
  let key := item_key item in
  if String.eqb key.2 "" then aggregated
  else
    match agg_get aggregated key with
    | None => agg_set aggregated key item
    | Some existing => agg_set aggregated key (reconcile existing item)
    end.

Definition fold_items (aggregated : Agg) (items : list Item) : Agg :=
  fold_left fold_item items aggregated.

(** The fold over the item lists of the snapshots that are opened. *)
Definition fold_window (aggregated : Agg) (window : list (list Item)) : Agg :=
  fold_left fold_items window aggregated.

(** [list(aggregated.values()) if aggregated else news_list] *)
Definition merged_list_of (aggregated : Agg) (news_list : list Item)
    : list Item :=
  match aggregated with
  | [] => news_list
  | _ :: _ => aggregated.*2
  end.

(** The aggregator on its own: the current items and the item lists of
    the snapshots that are folded. *)
Definition merge (news_list : list Item) (window : list (list Item))
    : list Item :=
  merged_list_of (fold_window [] window) news_list.

(** ** Snapshot store: the save and load parts of [SpiderNode.__call__] *)

(** A file matched by [snapshot_dir.glob("snapshot_*.json")].
    [stamp] is what [datetime.strptime] makes of the file stem: the
    wall-clock second it names, or [None] when it raises.  [content] is
    what [json.load(f)] and [data.get("items") or []] give: the item
    list, or [None] when reading the file raises. *)
Record SnapshotFile : Set := mkSnapshotFile {
  stamp : option Z;
  content : option (list Item)
}.

(** The storage as the process meets it: whether the directory can be
    created, whether the new file can be opened for writing, whether
    [json.dump] completes, and the files already there in glob order. *)
Record Storage : Set := mkStorage {
  mkdir_ok : bool;
  open_ok : bool;
  dump_ok : bool;
  files : list SnapshotFile
}.

Definition with_files (st : Storage) (fs : list SnapshotFile) : Storage :=
  {| mkdir_ok := mkdir_ok st; open_ok := open_ok st;
     dump_ok := dump_ok st; files := fs |}.

(** What the two [try] blocks print. *)
Inductive Output : Set :=
| SaveFailed (e : exn)
| MergedCount (n : nat)
| MergeFailed (e : exn).

(** [get_beijing_time()] at the UTC second [clock]: an aware datetime in
    the zone Asia/Shanghai, eight hours ahead of UTC. *)
Definition get_beijing_time (clock : Z) : datetime :=
  {| wall := (clock + 8 * 3600)%Z; tzinfo := Some (8 * 3600)%Z |}.

(** [open(snapshot_path, "w")] creates the file or truncates the file of
    that name.  The glob order is left to the file system; a new file is
    listed last here. *)
Fixpoint write_file (fs : list SnapshotFile) (s : Z)
    (c : option (list Item)) : list SnapshotFile :=
  match fs with
  | [] => [{| stamp := Some s; content := c |}]
  | f :: rest =>
      if decide (stamp f = Some s)
      then {| stamp := Some s; content := c |} :: rest
      else f :: write_file rest s c
  end.

(** The body of the first [try]: create the directory, name the file
    after the timestamp, open it and dump the items.  A dump that fails
    leaves a truncated file behind. *)
Definition save_snapshot (st : Storage) (timestamp : datetime)
    (news_list : list Item) : Storage * result unit :=
  if negb (mkdir_ok st) then (st, Raise OSError)
  else if negb (open_ok st) then (st, Raise OSError)
  else if negb (dump_ok st)
  then (with_files st (write_file (files st) (wall timestamp) None),
        Raise OSError)
  else (with_files st
          (write_file (files st) (wall timestamp) (Some news_list)),
        Ok ()).

(** [with open(p) as f: data = json.load(f); items = data.get("items") or []] *)
Definition load_items (p : SnapshotFile) : result (list Item) :=
  match content p with
  | Some items => Ok items
  | None => Raise ValueError
  end.

(** One round of [for p in snapshot_dir.glob(...)]. *)
Definition scan_file (cutoff : datetime) (aggregated : Agg)
    (p : SnapshotFile) : result Agg :=
  match stamp p with
  | None => Ok aggregated
  | Some s =>
      older ← dt_lt (strptime s) cutoff;
      if (older : bool) then Ok aggregated
      else
        items ← load_items p;
        Ok (fold_items aggregated items)
  end.

Fixpoint scan (cutoff : datetime) (aggregated : Agg)
    (ps : list SnapshotFile) : result Agg :=
  match ps with
  | [] => Ok aggregated
  | p :: rest =>
      aggregated' ← scan_file cutoff aggregated p;
      scan cutoff aggregated' rest
  end.

(** The second [try ... except Exception] of [SpiderNode.__call__]: scan
    the directory, take the values of [aggregated], and fall back to
    [news_list] when [aggregated] is empty or anything raised. *)
Definition merge_window (cutoff : datetime) (ps : list SnapshotFile)
    (news_list : list Item) : result (list Item) :=
  try_except
    (aggregated ← scan cutoff [] ps;
     Ok (merged_list_of aggregated news_list))
    (fun _ => Ok news_list).

(** What the second [try] prints: the size of the merged list, or the
    failure that made it fall back. *)
Definition merge_report (cutoff : datetime) (ps : list SnapshotFile)
    (news_list : list Item) : Output :=
  match scan cutoff [] ps with
  | Ok aggregated => MergedCount (length (merged_list_of aggregated news_list))
  | Raise e => MergeFailed e
  end.

Definition lookback_hours : Z := 24.

(** [SpiderNode.__call__] after the fetch loop: save the snapshot at the
    UTC second [t_save], then merge at the UTC second [t_now].  The
    result is the [news_list] of the returned state, or the exception
    that leaves the call. *)
Definition SpiderNode_call (st : Storage) (t_save t_now : Z)
    (news_list : list Item)
    : Storage * list Output * result (list Item) :=
  let timestamp := get_beijing_time t_save in
  let '(st1, saved) := save_snapshot st timestamp news_list in
  let out1 :=
    match saved with
    | Ok _ => []
    | Raise e => [SaveFailed e]
    end in
  let now := get_beijing_time t_now in
  let cutoff := sub_hours now lookback_hours in
  let merged := merge_window cutoff (files st1) news_list in
  (st1, (out1 ++ [merge_report cutoff (files st1) news_list])%list, merged).

(** ** Categorizer and sorter: [render_langgraph_html_report] *)

(** [list.sort(key=...)] is a stable sort that compares keys with [<]:
    insertion from the right, each element going before the first
    element whose key is not smaller than its own. *)
Section StableSort.
Context {A K : Type} (key : A -> K) (ltb : K -> K -> bool).

Fixpoint insert_sorted (x : A) (l : list A) : list A :=
  match l with
  | [] => [x]
  | y :: rest =>
      if ltb (key y) (key x) then y :: insert_sorted x rest
      else x :: y :: rest
  end.

Definition sort_by_key (l : list A) : list A :=
  foldr insert_sorted [] l.

(** [a] may stand before [b]: the key of [b] is not smaller. *)
Definition precedes (a b : A) : Prop := ltb (key b) (key a) = false.
End StableSort.

(** The [heat_score] of a topic as [float(tt.get("heat_score") or 0)]
    meets it: absent or null, a number (or a string that [float]
    parses), or a value on which [float] raises. *)
Inductive Heat : Set :=
| HeatAbsent
| HeatNumber (q : Q)
| HeatUnparsable.

Record Topic : Set := mkTopic {
  topic : option string;
  sentiment : option string;
  comment : option string;
  heat_score : Heat;
  category : option string
}.

Definition category_order : list string :=
  [ "经济类舆论";
    "突发事件舆论";
    "法治类舆论";
    "文娱类舆论";
    "科教类舆论";
    "国际关系类舆论";
    "健康类舆论";
    "治理类舆论";
    "民生类舆论";
    "生态环境类舆论";
    "其他" ].

Definition catch_all : string := "其他".

(** [{c: [] for c in category_order}] *)
Definition empty_buckets : gmap string (list Topic) :=
  list_to_map ((fun c => (c, [])) <$> category_order).

(** The category a topic is filed under. *)
Definition bucket_of (topics_by_category : gmap string (list Topic))
    (t : Topic) : string :=
  let cat := str_or (category t) catch_all in
  if bool_decide (is_Some (topics_by_category !! cat)) then cat
  else catch_all.

(** The body of [for t in top_topics]:
    [topics_by_category[cat].append(t)]. *)
Definition file_topic (topics_by_category : gmap string (list Topic))
    (t : Topic) : gmap string (list Topic) :=
  alter (fun bucket => (bucket ++ [t])%list) (bucket_of topics_by_category t)
    topics_by_category.

Definition group_by_category (top_topics : list Topic)
    : gmap string (list Topic) :=
  fold_left file_topic top_topics empty_buckets.

(** [h > max_heat] on floats. *)
Definition Qgtb (a b : Q) : bool := negb (Qle_bool a b).

(** [float(tt.get("heat_score") or 0)] with [TypeError] and [ValueError]
    caught. *)
Definition heat_of (tt : Topic) : Q :=
  match heat_score tt with
  | HeatNumber q => q
  | HeatAbsent | HeatUnparsable => 0
  end.

(** The loop of [_category_heat] from a running maximum. *)
Definition max_heat_from (topics : list Topic) (max_heat : Q) : Q :=
  fold_left (fun max_heat tt =>
               let h := heat_of tt in
               if Qgtb h max_heat then h else max_heat)
            topics max_heat.

(** [_category_heat] *)
Definition category_heat (topics_by_category : gmap string (list Topic))
    (cat : string) : Q :=
  let topics := default [] (topics_by_category !! cat) in
  max_heat_from topics 0%Q.

(** [l.index(c)] for a [c] of the list [l]; the length of [l] for a [c]
    that is not in it (where Python raises). *)
Fixpoint index_of (c : string) (l : list string) : nat :=
  match l with
  | [] => 0
  | x :: rest => if decide (x = c) then 0 else S (index_of c rest)
  end.

(** [<] on the tuples [(-heat, index)]: the first components are compared
    with [==] first, and the second components decide a tie. *)
Definition category_key_ltb (a b : Q * nat) : bool :=
  if Qeq_bool a.1 b.1 then bool_decide (a.2 < b.2)
  else negb (Qle_bool b.1 a.1).

Definition category_key (topics_by_category : gmap string (list Topic))
    (c : string) : Q * nat :=
  (Qopp (category_heat topics_by_category c), index_of c category_order).

(** [category_display_order] *)
Definition order_categories (topics_by_category : gmap string (list Topic))
    : list string :=
  sort_by_key (category_key topics_by_category) category_key_ltb
    (filter (fun c => default [] (topics_by_category !! c) <> [])
            category_order).

(** The platform priority list of the report. *)
Definition platform_order : list string :=
  [ "weibo"; "baidu-hot"; "douyin"; "zhihu"; "toutiao"; "tieba";
    "thepaper"; "cls"; "ifeng"; "wallstreetcn" ].

(** [platform_index[pid] = idx] *)
Definition index_insert (m : gmap string nat) (p : nat * string)
    : gmap string nat := <[p.2 := p.1]> m.

(** [{pid: idx for idx, pid in enumerate(platform_order)}]: a later
    binding of the same id replaces an earlier one. *)
Definition platform_index_of (order : list string) : gmap string nat :=
  fold_left index_insert (imap (fun i pid => (i, pid)) order) ∅.

(** [platforms]: an insertion-ordered dict from source id to the display
    name and the items of the group. *)
Abbreviation Platforms := (list (string * (string * list Item))) (only parsing).

Definition item_sid (n : Item) : string :=
  str_or (source_id n) (str_or (source n) "other").

(** The body of [for n in news_list] that fills [platforms]. *)
Fixpoint add_to_platform (platforms : Platforms) (sid sname : string)
    (n : Item) : Platforms :=
  match platforms with
  | [] => [(sid, (sname, [n]))]
  | (s, (name, items)) :: rest =>
      if decide (s = sid) then (s, (name, (items ++ [n])%list)) :: rest
      else (s, (name, items)) :: add_to_platform rest sid sname n
  end.

(** [n.get("source_name") or n.get("source") or source_id] *)
Definition display_name (n : Item) : string :=
  str_or (source_name n) (str_or (source n) (item_sid n)).

Definition group_platforms (news_list : list Item) : Platforms :=
  fold_left (fun platforms n =>
               add_to_platform platforms (item_sid n) (display_name n) n)
            news_list [].

(** [rows] before sorting: the groups in insertion order, each row a copy
    of the item with the id and the display name of its group. *)
Definition build_rows (platforms : Platforms) : list Item :=
  flat_map (fun g => set_source g.1 g.2.1 <$> g.2.2) platforms.

(** [_platform_sort_key] *)
Definition platform_sort_key (platform_index : gmap string nat)
    (item : Item) : nat :=
  default (size platform_index) (platform_index !! item_sid item).

(** [(_platform_sort_key(n), n.get("rank") or 9999)] *)
Definition row_key (platform_index : gmap string nat) (n : Item)
    : nat * Z :=
  (platform_sort_key platform_index n, int_or (rank n) 9999%Z).

(** [<] on the tuples [(platform, rank)]. *)
Definition row_key_ltb (a b : nat * Z) : bool :=
  if decide (a.1 = b.1) then bool_decide (a.2 < b.2)%Z
  else bool_decide (a.1 < b.1).

(** [rows] as the loop over [platforms.items()] leaves it. *)
Definition unsorted_rows (news_list : list Item) : list Item :=
  build_rows (group_platforms news_list).

(** The rows of the raw table for a priority list [order]. *)
Definition order_raw_rows (news_list : list Item) (order : list string)
    : list Item :=
  sort_by_key (row_key (platform_index_of order)) row_key_ltb
    (unsorted_rows news_list).

(** The rows as [render_langgraph_html_report] computes them. *)
Definition report_rows (news_list : list Item) : list Item :=
  order_raw_rows news_list platform_order.

(** ** Specification vocabulary *)

(** The items of a list that carry a given key. *)
Definition observed (key : Key) (items : list Item) : list Item :=
  filter (fun it => item_key it = key) items.

(** [o] is the least of the non-null values of [l], and null when [l] has
    none. *)
Definition is_min_of (o : option Z) (l : list (option Z)) : Prop :=
  match o with
  | None => forall x, x ∈ l -> x = None
  | Some m => Some m ∈ l /\ forall x, Some x ∈ l -> (m <= x)%Z
  end.

(** [o] is the greatest of the non-null values of [l], and null when [l]
    has none. *)
Definition is_max_of (o : option Z) (l : list (option Z)) : Prop :=
  match o with
  | None => forall x, x ∈ l -> x = None
  | Some m => Some m ∈ l /\ forall x, Some x ∈ l -> (x <= m)%Z
  end.



(** Two records agree on every field that the fold writes once. *)
Definition same_fixed_fields (a b : Item) : Prop :=
  source_id a = source_id b /\ source a = source b /\
  source_name a = source_name b /\ title a = title b /\
  url a = url b /\ mobile_url a = mobile_url b.

(** The stored record of one key after the items [l] of that key were
    folded into [acc]. *)
Definition fold_record (acc : option Item) (l : list Item) : option Item :=
  fold_left
    (fun acc it =>
       Some match acc with
            | None => it
            | Some existing => reconcile existing it
            end)
    l acc.

(** The category a topic counts under: its category string, or the
    catch-all when the string is missing, empty or outside the
    taxonomy. *)
Definition coerced_category (t : Topic) : string :=
  let cat := str_or (category t) catch_all in
  if bool_decide (cat ∈ category_order) then cat else catch_all.

(** [platforms.get(sid)] *)
Fixpoint platforms_get (platforms : Platforms) (sid : string)
    : option (string * list Item) :=
  match platforms with
  | [] => None
  | (s, g) :: rest => if decide (s = sid) then Some g else platforms_get rest sid
  end.

(** The display name of a platform group: the one of its first item. *)
Definition group_name (sid : string) (news_list : list Item) : string :=
  match head (filter (fun n => item_sid n = sid) news_list) with
  | Some first => display_name first
  | None => sid
  end.

(** The rows of one platform: its items in input order, each with the id
    and the display name of the group. *)
Definition platform_rows (sid : string) (news_list : list Item) : list Item :=
  set_source sid (group_name sid news_list)
    <$> filter (fun n => item_sid n = sid) news_list.

(** The platforms of a list of items in the order of their first
    appearance. *)
Definition platforms_seen (news_list : list Item) : list string :=
  fold_left (fun seen n =>
               if decide (item_sid n ∈ seen) then seen
               else (seen ++ [item_sid n])%list)
            news_list [].

(** [a <= b] on the tuples [(platform, rank)]. *)
Definition row_key_le (a b : nat * Z) : Prop :=
  a.1 < b.1 \/ (a.1 = b.1 /\ (a.2 <= b.2)%Z).

(** The items that a file brings to a window whose cutoff is the
    wall-clock second [c]: those of a file whose name holds a second not
    before [c]. *)
Definition window_items (c : Z) (p : SnapshotFile) : option (list Item) :=
  match stamp p with
  | Some s => if (s <? c)%Z then None else content p
  | None => None
  end.

(** The invariant of the category loop after the topics [seen]. *)
Definition grouped (m : gmap string (list Topic)) (seen : list Topic) : Prop :=
  forall c,
    m !! c =
    if decide (c ∈ category_order)
    then Some (filter (fun t => coerced_category t = c) seen)
    else None.

(** The invariant of the platform loop after the items [seen]. *)
Definition platforms_of (P : Platforms) (seen : list Item) : Prop :=
  NoDup P.*1 /\
  forall sid,
    match platforms_get P sid with
    | Some (name, items) =>
        items = filter (fun n => item_sid n = sid) seen /\
        items <> [] /\ name = group_name sid seen
    | None => filter (fun n => item_sid n = sid) seen = []
    end.

(** ** Concrete inputs used below *)

Module Sample.

(** An item as the scraper builds it. *)
Definition item (sid name ttl : string) (r h : Z) (link : string) : Item :=
  {| source_id := Some sid; source := Some name; source_name := Some name;
     title := Some ttl; rank := Some r; url := Some link;
     mobile_url := Some ""; hot_value := Some h |}.

(** The two snapshots of the dedup scenario, with different links. *)
Definition x_rank3 : Item := item "weibo" "微博热搜" "X" 3 50 "https://a".
Definition x_rank1 : Item := item "weibo" "微博热搜" "X" 1 80 "https://b".
Definition y_item : Item := item "zhihu" "知乎热榜" "Y" 1 10 "https://y".

(** A scraped item whose platform entry had no title. *)
Definition untitled : Item :=
  {| source_id := Some "weibo"; source := Some "微博热搜";
     source_name := Some "微博热搜"; title := None; rank := Some 1%Z;
     url := Some ""; mobile_url := Some ""; hot_value := Some 0%Z |}.

(** A storage that accepts every write and holds no file yet. *)
Definition fresh : Storage :=
  {| mkdir_ok := true; open_ok := true; dump_ok := true; files := [] |}.

End Sample.

Module SampleStore.

(** The moment of the run, in UTC seconds, and the wall-clock second in
    Beijing that the run reads off it. *)
Definition t_run : Z := 100000.
Definition wall_run : Z := wall (get_beijing_time t_run).

(** A snapshot written one hour before the run. *)
Definition hour_old : SnapshotFile :=
  {| stamp := Some (wall_run - 3600)%Z;
     content := Some [Sample.x_rank1] |}.

(** A file named fifty minutes before the run whose content is not
    JSON. *)
Definition corrupt : SnapshotFile :=
  {| stamp := Some (wall_run - 3000)%Z; content := None |}.

(** A file matched by the glob whose name holds no timestamp. *)
Definition foreign : SnapshotFile :=
  {| stamp := None; content := Some [Sample.y_item] |}.

(** A storage holding the hour-old snapshot. *)
Definition with_history : Storage :=
  {| mkdir_ok := true; open_ok := true; dump_ok := true;
     files := [hour_old] |}.

(** A storage whose directory exists and cannot be written. *)
Definition read_only : Storage :=
  {| mkdir_ok := true; open_ok := false; dump_ok := true;
     files := [hour_old] |}.

(** The cutoff of the run, and the same wall-clock second as a naive
    datetime. *)
Definition cutoff_run : datetime :=
  sub_hours (get_beijing_time t_run) lookback_hours.
Definition cutoff_naive : datetime :=
  sub_hours (strptime wall_run) lookback_hours.

End SampleStore.

Module SampleRows.

(** A row of the raw table: platform id, title and rank. *)
Definition row (sid ttl : string) (r : option Z) : Item :=
  {| source_id := Some sid; source := Some sid; source_name := Some sid;
     title := Some ttl; rank := r; url := Some "";
     mobile_url := Some ""; hot_value := Some 0%Z |}.

(** The platform ordering scenario. *)
Definition scenario : list Item :=
  [ row "weibo" "w" (Some 2%Z); row "zhihu" "z" (Some 1%Z);
    row "other" "o" (Some 1%Z) ].

(** Three rows of two platforms outside the priority list, all of rank
    1: the second platform comes between the two rows of the first. *)
Definition interleaved : list Item :=
  [ row "36kr" "x1" (Some 1%Z); row "sspai" "y" (Some 1%Z);
    row "36kr" "x2" (Some 1%Z) ].

(** Two rows of one unlisted platform, the better rank second. *)
Definition descending : list Item :=
  [ row "36kr" "a" (Some 2%Z); row "36kr" "b" (Some 1%Z) ].

End SampleRows.

Module SampleTopics.

Definition entry (name : string) (h : Heat) (cat : option string) : Topic :=
  {| topic := Some name; sentiment := Some "中性"; comment := Some "";
     heat_score := h; category := cat |}.

Definition topics : list Topic :=
  [ entry "a" (HeatNumber (5 # 1)) (Some "其他");
    entry "b" (HeatNumber (925 # 10)) (Some "科教类舆论");
    entry "c" HeatAbsent (Some "bogus");
    entry "d" (HeatNumber (5 # 1)) (Some "经济类舆论");
    entry "e" HeatUnparsable None ].


End SampleTopics.

(** * The code around the aggregator *)

(** ** HTML escaping: [html_escape] *)

(** [text.replace(old, new)] for a pattern [old] of one character.  The
    characters that [html_escape] looks for are ASCII, so replacing them
    in the UTF-8 bytes of a text is replacing them in the text. *)
Fixpoint replace_char (old : ascii) (new : string) (text : string)
    : string :=
  match text with
  | EmptyString => EmptyString
  | String c rest =>
      if Ascii.eqb c old then new ++ replace_char old new rest
      else String c (replace_char old new rest)
  end.

(** The double quote character. *)
Definition dquote : ascii := "034"%char.

(** [html_escape]: [None] becomes the empty text, and the five replaces
    run one after the other, the ampersand first. *)
Definition html_escape (text : option string) : string :=
  let text := default "" text in
  replace_char "'" "&#x27;"
    (replace_char dquote "&quot;"
       (replace_char ">" "&gt;"
          (replace_char "<" "&lt;"
             (replace_char "&" "&amp;" text)))).

(** What one character of the input becomes. *)
Definition escape_char (c : ascii) : string :=
  if Ascii.eqb c "&" then "&amp;"
  else if Ascii.eqb c "<" then "&lt;"
  else if Ascii.eqb c ">" then "&gt;"
  else if Ascii.eqb c dquote then "&quot;"
  else if Ascii.eqb c "'" then "&#x27;"
  else String c EmptyString.

(** The characters that [html_escape] rewrites. *)
Definition is_html_special (c : ascii) : bool :=
  Ascii.eqb c "&" || Ascii.eqb c "<" || Ascii.eqb c ">" ||
  Ascii.eqb c dquote || Ascii.eqb c "'".

(** Every character replaced by its escape, in one pass. *)
Fixpoint escape_each (text : string) : string :=
  match text with
  | EmptyString => EmptyString
  | String c rest => escape_char c ++ escape_each rest
  end.

(** The characters of a text. *)
Fixpoint chars (text : string) : list ascii :=
  match text with
  | EmptyString => []
  | String c rest => c :: chars rest
  end.

(** ** Environment: [apply_env_aliases] *)

(** [os.environ]: variable names to values. *)
Abbreviation Env := (gmap string string) (only parsing).

(** [os.environ.get(k)] when it is truthy: the value of a variable that
    is set and not empty. *)
Definition env_truthy (env : Env) (k : string) : option string :=
  match env !! k with
  | Some v => if String.eqb v "" then None else Some v
  | None => None
  end.

(** [if target not in os.environ and <fallback>: os.environ[target] = <fallback>] *)
Definition alias_step (target : string) (fallback : Env -> option string)
    (env : Env) : Env :=
  match env !! target with
  | Some _ => env
  | None =>
      match fallback env with
      | Some v => <[target := v]> env
      | None => env
      end
  end.

(** The fallback of the three model names: [KIMI_MODEL_NAME], and
    [KIMI_MODEL] when that one is unset or empty. *)
Definition kimi_model (env : Env) : option string :=
  match env_truthy env "KIMI_MODEL_NAME" with
  | Some v => Some v
  | None => env_truthy env "KIMI_MODEL"
  end.

Definition api_key_targets : list string :=
  [ "INSIGHT_ENGINE_API_KEY"; "REPORT_ENGINE_API_KEY";
    "QUERY_ENGINE_API_KEY"; "OPENAI_API_KEY" ].

Definition base_url_targets : list string :=
  [ "INSIGHT_ENGINE_BASE_URL"; "REPORT_ENGINE_BASE_URL";
    "QUERY_ENGINE_BASE_URL"; "OPENAI_BASE_URL" ].

Definition model_name_targets : list string :=
  [ "INSIGHT_ENGINE_MODEL_NAME"; "REPORT_ENGINE_MODEL_NAME";
    "QUERY_ENGINE_MODEL_NAME" ].

(** The eleven [if] statements of [apply_env_aliases], in order. *)
Definition alias_steps : list (string * (Env -> option string)) :=
  ((fun t => (t, fun env => env_truthy env "KIMI_API_KEY")) <$> api_key_targets)
  ++ ((fun t => (t, fun env => env_truthy env "KIMI_BASE_URL"))
        <$> base_url_targets)
  ++ ((fun t => (t, kimi_model)) <$> model_name_targets).

Definition apply_env_aliases (env : Env) : Env :=
  fold_left (fun env step => alias_step step.1 step.2 env) alias_steps env.

(** What a variable falls back to when it is not set. *)
Definition alias_fallback (env : Env) (k : string) : option string :=
  if bool_decide (k ∈ api_key_targets) then env_truthy env "KIMI_API_KEY"
  else if bool_decide (k ∈ base_url_targets) then env_truthy env "KIMI_BASE_URL"
  else if bool_decide (k ∈ model_name_targets) then kimi_model env
  else None.

(** The variables that the fallbacks read. *)
Definition kimi_sources : list string :=
  [ "KIMI_API_KEY"; "KIMI_BASE_URL"; "KIMI_MODEL_NAME"; "KIMI_MODEL" ].

(** A fallback that looks at the variables [srcs] only. *)
Definition reads_only (srcs : list string) (f : Env -> option string) : Prop :=
  forall e1 e2 : Env, (forall s, s ∈ srcs -> e1 !! s = e2 !! s) -> f e1 = f e2.

(** The fallback that a list of steps holds for a variable. *)
Fixpoint step_for (k : string) (steps : list (string * (Env -> option string)))
    : option (Env -> option string) :=
  match steps with
  | [] => None
  | (t, f) :: rest => if decide (t = k) then Some f else step_for k rest
  end.

(** ** Sources: [load_config] and [SpiderNode.__init__] *)

(** An entry of the [platforms] list of the configuration: [p['id']],
    which raises when the key is missing, and [p.get('name', ...)]. *)
Record PlatformCfg : Set := mkPlatformCfg {
  cfg_id : option string;
  cfg_name : option string
}.

(** The configuration as [SpiderNode.__init__] reads it: the
    [platforms] key. *)
Record Config : Set := mkConfig {
  platforms : field (list PlatformCfg)
}.

(** What [load_config] finds: no file at either path, or a file and what
    [yaml.safe_load] makes of it ([None] for an empty document). *)
Inductive ConfigFile : Set :=
| Missing
| Loaded (c : option Config).

(** The dict returned when no file is found; only its [platforms] key is
    read here. *)
Definition default_config : Config := {| platforms := Val [] |}.

Definition load_config (file : ConfigFile) : option Config :=
  match file with
  | Missing => Some default_config
  | Loaded c => c
  end.

(** [d[k] = v] on an insertion-ordered dict with string keys. *)
Fixpoint dict_set {V : Type} (d : list (string * V)) (k : string) (v : V)
    : list (string * V) :=
  match d with
  | [] => [(k, v)]
  | (k0, old) :: rest =>
      if decide (k0 = k) then (k0, v) :: rest
      else (k0, old) :: dict_set rest k v
  end.

(** [d.get(k)] *)
Fixpoint dict_get {V : Type} (d : list (string * V)) (k : string)
    : option V :=
  match d with
  | [] => None
  | (k0, v) :: rest => if decide (k0 = k) then Some v else dict_get rest k
  end.

(** The sources that [SpiderNode.__init__] sets first. *)
Definition builtin_sources : list (string * string) :=
  [ ("weibo", "微博热搜"); ("zhihu", "知乎热榜");
    ("bilibili-hot-search", "B站热搜"); ("toutiao", "今日头条");
    ("douyin", "抖音热榜"); ("36kr", "36氪"); ("sspai", "少数派") ].

(** [{p['id']: p.get('name', p['id']) for p in CONFIG['platforms']}];
    [None] when an entry has no [id]. *)
Fixpoint sources_from (ps : list PlatformCfg) (d : list (string * string))
    : option (list (string * string)) :=
  match ps with
  | [] => Some d
  | p :: rest =>
      match cfg_id p with
      | None => None
      | Some i => sources_from rest (dict_set d i (default i (cfg_name p)))
      end
  end.

(** [self.sources] after [SpiderNode.__init__]; [None] when the
    constructor raises ([platforms] is null, or an entry has no [id]). *)
Definition SpiderNode_sources (config : option Config)
    : option (list (string * string)) :=
  match config with
  | None => Some builtin_sources
  | Some c =>
      match platforms c with
      | Absent => Some builtin_sources
      | Null => None
      | Val ps => sources_from ps []
      end
  end.

(** ** Scraper of [trend_radar_v2.py]: [MindSpider.collect_and_save_news] *)

(** The body of [for item in top_items] of the second version: four
    keys, no rank and no source id. *)
Fixpoint collect_entries (sname : string)
    (top_items : list (option RawEntry)) : list Item :=
  match top_items with
  | [] => []
  | None :: _ => []
  | Some item :: rest =>
      {| source_id := None;
         source := Some sname;
         source_name := None;
         title := get (raw_title item);
         rank := None;
         url := get (raw_url item);
         mobile_url := None;
         hot_value := get_default (raw_hotValue item) 0%Z |}
      :: collect_entries sname rest
  end.

Definition collect_platform (sname : string) (r : Response) : list Item :=
  match r with
  | Items items => collect_entries sname (take 10 items)
  | NoData | BadBody => []
  end.

Definition collect_news (sources : list (string * string))
    (fetch_data : string -> Response) : list Item :=
  flat_map (fun s => collect_platform s.2 (fetch_data s.1)) sources.

(** [SpiderNode] from its construction to the end of [__call__]: the
    sources of the configuration, the fetch loop over them, the save and
    the merge.  [None] when the constructor raises. *)
Definition SpiderNode_run (file : ConfigFile) (fetch_data : string -> Response)
    (st : Storage) (t_save t_now : Z)
    : option (Storage * list Output * result (list Item)) :=
  sources ← SpiderNode_sources (load_config file);
  Some (SpiderNode_call st t_save t_now (scrape sources fetch_data)).

(** The name that the entries of a configuration give to an id: the one
    of the last entry with that id, the id itself when that entry has no
    name. *)
Definition configured_name (k : string) (ps : list PlatformCfg)
    : option string :=
  fold_left (fun acc p =>
               if decide (cfg_id p = Some k)
               then Some (default k (cfg_name p)) else acc)
            ps None.

(** The entries of a response before the first one that is not a JSON
    object. *)
Fixpoint leading_entries (items : list (option RawEntry)) : list RawEntry :=
  match items with
  | Some e :: rest => e :: leading_entries rest
  | _ => []
  end.

(** ** Environment: [load_env_file] *)

(** One attempt at reading the file, with one encoding: the assignments
    of the lines that the loop went through and that passed its filter,
    each as the key and the value that the splitting and stripping make
    of the line, and whether the attempt reached the end of the file
    ([false]: it raised after those lines, or before the first one). *)
Record Reading : Set := mkReading {
  assignments : list (string * string);
  complete : bool
}.

Definition encodings : list string :=
  [ "utf-8"; "utf-8-sig"; "utf-16"; "utf-16-le"; "utf-16-be" ].

(** [if key and key not in os.environ: os.environ[key] = value] *)
Definition set_default (env : Env) (assignment : string * string) : Env :=
  if String.eqb assignment.1 "" then env
  else match env !! assignment.1 with
       | Some _ => env
       | None => <[assignment.1 := assignment.2]> env
       end.

(** The loop over the lines of one attempt. *)
Definition load_lines (env : Env) (lines : list (string * string)) : Env :=
  fold_left set_default lines env.

(** [for encoding in encodings]: the first attempt that reaches the end
    of the file returns; what an attempt that raised had set stays
    set. *)
Fixpoint load_with (read : string -> Reading) (encs : list string)
    (env : Env) : Env :=
  match encs with
  | [] => env
  | encoding :: rest =>
      let env' := load_lines env (assignments (read encoding)) in
      if complete (read encoding) then env' else load_with read rest env'
  end.

(** [load_env_file()]: [None] when none of the candidate paths
    exists. *)
Definition load_env_file (file : option (string -> Reading)) (env : Env)
    : Env :=
  match file with
  | None => env
  | Some read => load_with read encodings env
  end.

(** The two calls at import time. *)
Definition startup_env (file : option (string -> Reading)) (env : Env)
    : Env :=
  apply_env_aliases (load_env_file file env).

(** The assignments that the attempts go through, in order, up to the
    end of the first complete attempt. *)
Fixpoint lines_read (read : string -> Reading) (encs : list string)
    : list (string * string) :=
  match encs with
  | [] => []
  | encoding :: rest =>
      (assignments (read encoding)
       ++ (if complete (read encoding) then [] else lines_read read rest))%list
  end.

(** The value that a file gives to a variable: the one of the first
    assignment to it; the empty name is given none. *)
Definition file_value (file : option (string -> Reading)) (k : string)
    : option string :=
  match file with
  | None => None
  | Some read =>
      if String.eqb k "" then None
      else dict_get (lines_read read encodings) k
  end.

(** ** Further vocabulary *)

(** A rank that is no worse than another: when the other is there, this
    one is there too and is not greater. *)
Definition rank_no_worse (new old : option Z) : Prop :=
  forall y, old = Some y -> exists x, new = Some x /\ (x <= y)%Z.

(** A hot value that is no less than another: when the other is there,
    this one is there too and is not smaller. *)
Definition hot_no_less (new old : option Z) : Prop :=
  forall y, old = Some y -> exists x, new = Some x /\ (y <= x)%Z.

(** The keys of a list of items in the order of their first appearance,
    the keys with an empty title left out. *)
Definition keys_seen (items : list Item) : list Key :=
  fold_left (fun seen it =>
               if String.eqb (item_key it).2 "" then seen
               else if decide (item_key it ∈ seen) then seen
               else (seen ++ [item_key it])%list)
            items [].

(** What a row of the raw table shows of its item beside the platform. *)
Definition row_content (r : Item)
    : option string * option Z * option string * option string * option Z :=
  (title r, rank r, url r, mobile_url r, hot_value r).

(** ** The graph: [InsightNode], [ForumNode], [ReportNode], [build_graph] *)

(** How a call ends: with a value, or with an exception, named by its
    class. *)
Inductive Outcome (A : Type) : Type :=
| Returns (a : A)
| Raises (exception : string).
Arguments Returns {A} a.
Arguments Raises {A} exception.

(** The analysis result as the later nodes read it: [top_topics] when
    the key is bound to a list, [summary], and the [raw] text kept when
    the reply could not be parsed. *)
Record Analysis : Set := mkAnalysis {
  top_topics : option (list Topic);
  summary : option string;
  raw : option string
}.

(** [{}] *)
Definition empty_analysis : Analysis :=
  {| top_topics := None; summary := None; raw := None |}.

(** The page, by the data of the state that is put into the template;
    the time of generation, which the header shows too, is left out. *)
Inductive Page : Set :=
| NoDataPage
| ReportPage (total_news : nat) (topic_count : nat) (summary_text : string)
    (sections : list (string * list Topic)) (discussion : string)
    (rows : list Item).

(** The state of the graph. *)
Record TrendState : Set := mkTrendState {
  news_list : list Item;
  analysis_result : Analysis;
  forum_discussion : string;
  html_report : option Page;
  error : option string
}.

(** The state that [main] starts the graph with. *)
Definition initial_state : TrendState :=
  {| news_list := []; analysis_result := empty_analysis;
     forum_discussion := ""; html_report := None; error := None |}.

Definition default_topic : string := "今日热点".

Section Graph.

(** The collaborators: the language model of the insight node, called
    with the news list that its prompt is built from; [json.loads] on
    the cleaned reply, giving the analysis or the text of the exception;
    the language model of the forum node, called with the topic.
    The prompt reads [n['source']] and [n['title']] of every item, keys
    that every item of a scrape carries; a reply that parses to
    something else than a JSON object of topics is left out. *)
Variable insight_llm : list Item -> Outcome string.
Variable parse_reply : string -> Analysis + string.
Variable forum_llm : string -> Outcome string.

(** [InsightNode.__call__].  When the model call raises, [content] is
    not bound yet and the handler, which reads it, raises in turn. *)
Definition InsightNode_call (state : TrendState) : Outcome TrendState :=
  match news_list state with
  | [] =>
      Returns
        {| news_list := news_list state;
           analysis_result :=
             {| top_topics := Some []; summary := Some "今日无新闻数据";
                raw := None |};
           forum_discussion := forum_discussion state;
           html_report := html_report state;
           error := Some "No news to analyze" |}
  | _ :: _ =>
      match insight_llm (news_list state) with
      | Raises _ => Raises "UnboundLocalError"
      | Returns content =>
          match parse_reply content with
          | inl analysis =>
              Returns
                {| news_list := news_list state;
                   analysis_result := analysis;
                   forum_discussion := forum_discussion state;
                   html_report := html_report state;
                   error := error state |}
          | inr message =>
              Returns
                {| news_list := news_list state;
                   analysis_result :=
                     {| top_topics := None; summary := None;
                        raw := Some content |};
                   forum_discussion := forum_discussion state;
                   html_report := html_report state;
                   error := Some message |}
          end
      end
  end.

(** The topic that [ForumNode.__call__] discusses. *)
Definition forum_topic (analysis : Analysis) : string :=
  match top_topics analysis with
  | Some (first :: _) => default default_topic (topic first)
  | _ => default_topic
  end.

(** [ForumNode.__call__] on a well-typed analysis: the call of the
    model is inside the [try]; the selection of the topic is outside of
    it and raises on a reply of another shape, which [Analysis] leaves
    out. *)
Definition ForumNode_call (state : TrendState) : Outcome TrendState :=
  let discussion :=
    match forum_llm (forum_topic (analysis_result state)) with
    | Returns content => content
    | Raises _ => "讨论生成失败"
    end in
  Returns
    {| news_list := news_list state;
       analysis_result := analysis_result state;
       forum_discussion := discussion;
       html_report := html_report state;
       error := error state |}.

(** The data that [render_langgraph_html_report] puts into the page. *)
Definition render_langgraph_html_report (news : list Item)
    (analysis : Analysis) (discussion : string) : Page :=
  let topics := default [] (top_topics analysis) in
  let buckets := group_by_category topics in
  ReportPage (length news) (length topics)
    (str_or (summary analysis) "暂无总结")
    ((fun c => (c, default [] (buckets !! c))) <$> order_categories buckets)
    (str_or (Some discussion) "暂无重大事件剖析")
    (report_rows news).

(** [ReportNode.__call__] on a well-typed analysis; the rendering has
    no [try] and raises on a reply of another shape, which [Analysis]
    leaves out. *)
Definition ReportNode_call (state : TrendState) : Outcome TrendState :=
  let failed :=
    match error state with
    | Some message => negb (String.eqb message "")
    | None => false
    end in
  let page :=
    if failed || bool_decide (news_list state = [])
    then NoDataPage
    else render_langgraph_html_report (news_list state)
           (analysis_result state) (forum_discussion state) in
  Returns
    {| news_list := news_list state;
       analysis_result := analysis_result state;
       forum_discussion := forum_discussion state;
       html_report := Some page;
       error := error state |}.

(** One node after the other; an exception of a node ends the run. *)
Definition and_then {A B} (o : Outcome A) (f : A -> Outcome B) : Outcome B :=
  match o with
  | Returns a => f a
  | Raises e => Raises e
  end.

(** The compiled graph on the news list that the spider node returns:
    spider, insight, forum, report. *)
Definition run_graph (merged_list : list Item) : Outcome TrendState :=
  let state :=
    {| news_list := merged_list;
       analysis_result := analysis_result initial_state;
       forum_discussion := forum_discussion initial_state;
       html_report := html_report initial_state;
       error := error initial_state |} in
  and_then (InsightNode_call state) (fun state =>
  and_then (ForumNode_call state) ReportNode_call).

End Graph.

(** The top topic of [TrendRadarV2.run]: no discussion when [top_topics]
    is not a list, and an [IndexError] when the list is empty. *)
Definition run_top_topic (analysis : Analysis) : Outcome (option string) :=
  match top_topics analysis with
  | None => Returns None
  | Some [] => Raises "IndexError"
  | Some (first :: _) => Returns (Some (default default_topic (topic first)))
  end.

(** The class name of an exception. *)
Definition exn_name (e : exn) : string :=
  match e with
  | TypeError => "TypeError"
  | ValueError => "ValueError"
  | OSError => "OSError"
  end.

(** [main]: the graph is built, which constructs the spider node, and
    invoked; the spider node hands its merged list to the other nodes.
    [None] when the construction of the spider node raises. *)
Definition run_pipeline (file : ConfigFile) (fetch_data : string -> Response)
    (st : Storage) (t_save t_now : Z)
    (insight_llm : list Item -> Outcome string)
    (parse_reply : string -> Analysis + string)
    (forum_llm : string -> Outcome string) : option (Outcome TrendState) :=
  run ← SpiderNode_run file fetch_data st t_save t_now;
  Some match run.2 with
       | Ok merged_list =>
           run_graph insight_llm parse_reply forum_llm merged_list
       | Raise e => Raises (exn_name e)
       end.

(** The page of a run that ended. *)
Definition page_of (o : Outcome TrendState) : option Page :=
  match o with
  | Returns state => html_report state
  | Raises _ => None
  end.

(** * Proofs *)

(** ** The aggregated dict *)

Lemma agg_get_set_eq (a : Agg) k v : agg_get (agg_set a k v) k = Some v.
Proof.
  induction a as [|[k0 v0] a IH]; simpl.
  - by rewrite decide_True.
  - destruct (decide (k0 = k)) as [->|Hne]; simpl.
    + by rewrite decide_True.
    + by rewrite decide_False.
Qed.

Lemma agg_get_set_ne (a : Agg) k k' v :
  k <> k' -> agg_get (agg_set a k v) k' = agg_get a k'.
Proof.
  intros Hne. induction a as [|[k0 v0] a IH]; simpl.
  - by rewrite decide_False.
  - destruct (decide (k0 = k)) as [->|Hne0]; simpl.
    + by rewrite !decide_False.
    + by rewrite IH.
Qed.

Lemma agg_get_None (a : Agg) k : agg_get a k = None <-> k ∉ a.*1.
Proof.
  induction a as [|[k0 v0] a IH]; csimpl.
  - split; [intros _; apply not_elem_of_nil | done].
  - rewrite not_elem_of_cons. destruct (decide (k0 = k)) as [->|Hne].
    + split; [done | intros [? _]; done].
    + rewrite IH. split; [intros ?; split; [congruence | done] | intros [_ ?]; done].
Qed.

Lemma agg_get_Some (a : Agg) k v :
  NoDup a.*1 -> agg_get a k = Some v <-> (k, v) ∈ a.
Proof.
  induction a as [|[k0 v0] a IH]; csimpl; intros Hnd.
  - split; [done | intros H; by apply elem_of_nil in H].
  - apply NoDup_cons in Hnd as [Hk0 Hnd]. rewrite elem_of_cons.
    destruct (decide (k0 = k)) as [->|Hne].
    + split.
      * intros [= ->]. by left.
      * intros [[= ->]|Hin]; [done|].
        exfalso. apply Hk0. apply list_elem_of_fmap. by exists (k, v).
    + rewrite (IH Hnd). split; [by right | intros [[= ? ?]|?]; [congruence | done]].
Qed.

Lemma agg_set_keys (a : Agg) k v :
  (agg_set a k v).*1 =
  match agg_get a k with
  | Some _ => a.*1
  | None => a.*1 ++ [k]
  end%list.
Proof.
  induction a as [|[k0 v0] a IH]; csimpl; [done|].
  destruct (decide (k0 = k)) as [->|Hne]; csimpl; [done|].
  rewrite IH. by destruct (agg_get a k).
Qed.

Lemma agg_set_NoDup (a : Agg) k v : NoDup a.*1 -> NoDup (agg_set a k v).*1.
Proof.
  intros Hnd. rewrite agg_set_keys.
  destruct (agg_get a k) eqn:Hg; [done|].
  apply NoDup_app. split_and!; [done | | apply NoDup_singleton].
  intros x Hx Hx'. apply list_elem_of_singleton in Hx' as ->.
  by apply agg_get_None in Hg.
Qed.

(** ** One step of the fold *)

Lemma fold_item_get (a : Agg) it k :
  agg_get (fold_item a it) k =
  if decide (item_key it = k /\ k.2 <> "")
  then Some match agg_get a k with
            | None => it
            | Some existing => reconcile existing it
            end
  else agg_get a k.
Proof.
  unfold fold_item.
  destruct (String.eqb_spec (item_key it).2 "") as [He|He].
  - rewrite decide_False; [done|]. intros [<- ?]. done.
  - destruct (decide (item_key it = k)) as [<-|Hne].
    + rewrite decide_True by done.
      destruct (agg_get a (item_key it)); by rewrite agg_get_set_eq.
    + rewrite decide_False by (intros [? _]; done).
      destruct (agg_get a (item_key it)); by rewrite agg_get_set_ne.
Qed.

Lemma fold_item_NoDup (a : Agg) it : NoDup a.*1 -> NoDup (fold_item a it).*1.
Proof.
  intros Hnd. unfold fold_item.
  destruct (String.eqb _ _); [done|].
  destruct (agg_get a (item_key it)); by apply agg_set_NoDup.
Qed.

Lemma fold_items_NoDup items (a : Agg) :
  NoDup a.*1 -> NoDup (fold_items a items).*1.
Proof.
  unfold fold_items.
  revert a. induction items as [|it items IH]; intros a Hnd; simpl; [done|].
  apply IH. by apply fold_item_NoDup.
Qed.

Lemma fold_items_get items (a : Agg) k :
  agg_get (fold_items a items) k =
  if decide (k.2 = "") then agg_get a k
  else fold_record (agg_get a k) (observed k items).
Proof.
  unfold fold_items.
  revert a. induction items as [|it items IH]; intros a; simpl.
  - by destruct (decide _).
  - rewrite IH, fold_item_get. unfold observed.
    destruct (decide (k.2 = "")) as [Hk|Hk].
    + rewrite decide_False; [done|]. intros [_ ?]. done.
    + rewrite filter_cons. destruct (decide (item_key it = k)) as [Hik|Hik].
      * by rewrite decide_True.
      * rewrite decide_False; [done|]. intros [? _]. done.
Qed.

Lemma fold_window_concat window (a : Agg) :
  fold_window a window = fold_items a (concat window).
Proof.
  revert a. induction window as [|s window IH]; intros a; simpl; [done|].
  unfold fold_window in *. simpl. rewrite IH.
  unfold fold_items. by rewrite fold_left_app.
Qed.

(** ** Reconciliation of one key *)

Lemma reconcile_rank existing it :
  rank (reconcile existing it) =
  if rank_improves (rank it) (rank existing) then rank it else rank existing.
Proof.
  unfold reconcile.
  destruct (rank_improves _ _), (hot_improves _ _); reflexivity.
Qed.

Lemma reconcile_hot_value existing it :
  hot_value (reconcile existing it) =
  if hot_improves (hot_value it) (hot_value existing)
  then hot_value it else hot_value existing.
Proof.
  unfold reconcile.
  destruct (rank_improves _ _); simpl; destruct (hot_improves _ _); reflexivity.
Qed.

Lemma reconcile_fixed existing it :
  same_fixed_fields (reconcile existing it) existing.
Proof.
  unfold reconcile, same_fixed_fields.
  destruct (rank_improves _ _); simpl; destruct (hot_improves _ _); simpl;
    repeat split.
Qed.

Lemma same_fixed_fields_key a b : same_fixed_fields a b -> item_key a = item_key b.
Proof. intros (H1 & H2 & _ & H4 & _). unfold item_key. by rewrite H1, H2, H4. Qed.

Lemma is_min_of_singleton o : is_min_of o [o].
Proof.
  destruct o as [m|]; simpl.
  - split; [apply list_elem_of_singleton; done|].
    intros x Hx. apply list_elem_of_singleton in Hx. injection Hx as ->. lia.
  - intros x Hx. by apply list_elem_of_singleton in Hx.
Qed.

Lemma is_max_of_singleton o : is_max_of o [o].
Proof.
  destruct o as [m|]; simpl.
  - split; [apply list_elem_of_singleton; done|].
    intros x Hx. apply list_elem_of_singleton in Hx. injection Hx as ->. lia.
  - intros x Hx. by apply list_elem_of_singleton in Hx.
Qed.

(** Membership in a list extended by one element, as the two lemmas
    below need it. *)
Local Ltac in_last := apply elem_of_app; right; by apply list_elem_of_singleton.
Local Ltac in_seen := apply elem_of_app; by left.
Local Ltac by_bound Hle :=
  let x := fresh "x" in
  let Hx := fresh "Hx" in
  intros x [Hx|Hx]%elem_of_app;
  [ try (specialize (Hle _ Hx)); try done; try lia
  | apply list_elem_of_singleton in Hx; try done;
    try (injection Hx as ->; lia) ].

Lemma is_min_of_step a b seen :
  is_min_of a seen ->
  is_min_of (if rank_improves b a then b else a) (seen ++ [b]).
Proof.
  intros Ha. destruct b as [rn|], a as [ro|]; simpl in *.
  - destruct Ha as [Hin Hle]. case_bool_decide as Hlt; simpl.
    + split; [in_last | by_bound Hle].
    + split; [in_seen | by_bound Hle].
  - split; [in_last | by_bound Ha].
  - destruct Ha as [Hin Hle]. split; [in_seen | by_bound Hle].
  - by_bound Ha.
Qed.

Lemma is_max_of_step a b seen :
  is_max_of a seen ->
  is_max_of (if hot_improves b a then b else a) (seen ++ [b]).
Proof.
  intros Ha. destruct b as [hn|], a as [ho|]; simpl in *.
  - destruct Ha as [Hin Hle]. case_bool_decide as Hgt; simpl.
    + split; [in_last | by_bound Hle].
    + split; [in_seen | by_bound Hle].
  - split; [in_last | by_bound Ha].
  - destruct Ha as [Hin Hle]. split; [in_seen | by_bound Hle].
  - by_bound Ha.
Qed.

Lemma fold_record_Some existing l :
  fold_record (Some existing) l = Some (fold_left reconcile l existing).
Proof.
  unfold fold_record. revert existing.
  induction l as [|it l IH]; intros existing; simpl; [done|]. apply IH.
Qed.

Lemma fold_reconcile_rank l existing seen :
  is_min_of (rank existing) seen ->
  is_min_of (rank (fold_left reconcile l existing)) (seen ++ (rank <$> l)).
Proof.
  revert existing seen.
  induction l as [|it l IH]; intros existing seen Hmin; csimpl.
  - by rewrite app_nil_r.
  - rewrite cons_middle, app_assoc. apply IH.
    rewrite reconcile_rank. by apply is_min_of_step.
Qed.

Lemma fold_reconcile_hot_value l existing seen :
  is_max_of (hot_value existing) seen ->
  is_max_of (hot_value (fold_left reconcile l existing))
    (seen ++ (hot_value <$> l)).
Proof.
  revert existing seen.
  induction l as [|it l IH]; intros existing seen Hmax; csimpl.
  - by rewrite app_nil_r.
  - rewrite cons_middle, app_assoc. apply IH.
    rewrite reconcile_hot_value. by apply is_max_of_step.
Qed.

Lemma fold_reconcile_fixed l existing :
  same_fixed_fields (fold_left reconcile l existing) existing.
Proof.
  revert existing. induction l as [|it l IH]; intros existing; simpl.
  - by repeat split.
  - destruct (IH (reconcile existing it)) as (H1 & H2 & H3 & H4 & H5 & H6).
    destruct (reconcile_fixed existing it) as (G1 & G2 & G3 & G4 & G5 & G6).
    unfold same_fixed_fields. by rewrite H1, H2, H3, H4, H5, H6.
Qed.

(** The stored record of a key, from the items of that key. *)
Lemma fold_record_spec l stored :
  fold_record None l = Some stored ->
  (exists first, head l = Some first /\ same_fixed_fields stored first) /\
  is_min_of (rank stored) (rank <$> l) /\
  is_max_of (hot_value stored) (hot_value <$> l).
Proof.
  destruct l as [|first l]; [done|].
  change (fold_record None (first :: l)) with (fold_record (Some first) l).
  rewrite fold_record_Some. intros [= <-]. split_and!.
  - exists first. split; [done | apply fold_reconcile_fixed].
  - apply (fold_reconcile_rank l first [rank first]), is_min_of_singleton.
  - apply (fold_reconcile_hot_value l first [hot_value first]),
      is_max_of_singleton.
Qed.

Lemma fold_record_None l : fold_record None l = None <-> l = [].
Proof.
  destruct l as [|first l]; [done|].
  change (fold_record None (first :: l)) with (fold_record (Some first) l).
  by rewrite fold_record_Some.
Qed.

Lemma observed_nonempty key items :
  observed key items <> [] <-> exists it, it ∈ items /\ item_key it = key.
Proof.
  unfold observed. split.
  - intros Hne. destruct (filter _ items) as [|it l] eqn:Hf; [done|].
    exists it.
    assert (it ∈ filter (fun it => item_key it = key) items) as Hit
      by (rewrite Hf; by left).
    apply list_elem_of_filter in Hit as [? ?]. done.
  - intros (it & Hin & Hk) Hnil.
    assert (it ∈ filter (fun it => item_key it = key) items) as Hit
      by (apply list_elem_of_filter; done).
    rewrite Hnil in Hit. by apply elem_of_nil in Hit.
Qed.

(** ** The aggregated dict of a window *)

Lemma fold_window_NoDup window : NoDup (fold_window [] window).*1.
Proof. rewrite fold_window_concat. apply fold_items_NoDup, NoDup_nil_2. Qed.

Lemma fold_window_get window key :
  agg_get (fold_window [] window) key =
  if decide (key.2 = "") then None
  else fold_record None (observed key (concat window)).
Proof. by rewrite fold_window_concat, fold_items_get. Qed.

Lemma fold_window_keys window key :
  key ∈ (fold_window [] window).*1 <->
  key.2 <> "" /\ exists it, it ∈ concat window /\ item_key it = key.
Proof.
  rewrite <- observed_nonempty, <- fold_record_None.
  destruct (decide (key ∈ (fold_window [] window).*1)) as [Hin|Hin].
  - split; [intros _ | done].
    assert (agg_get (fold_window [] window) key <> None) as Hg
      by (by rewrite agg_get_None; intros ?).
    rewrite fold_window_get in Hg. by destruct (decide _).
  - split; [done|]. intros [Hk Hr]. exfalso.
    apply agg_get_None in Hin. rewrite fold_window_get in Hin.
    by rewrite decide_False in Hin.
Qed.

Lemma fold_window_record window key stored :
  (key, stored) ∈ fold_window [] window ->
  key.2 <> "" /\
  (exists first, head (observed key (concat window)) = Some first /\
                 same_fixed_fields stored first) /\
  is_min_of (rank stored) (rank <$> observed key (concat window)) /\
  is_max_of (hot_value stored) (hot_value <$> observed key (concat window)).
Proof.
  intros Hin. apply agg_get_Some in Hin; [|apply fold_window_NoDup].
  rewrite fold_window_get in Hin.
  destruct (decide (key.2 = "")); [done|].
  split; [done|]. by apply fold_record_spec.
Qed.

Lemma fold_window_record_key window key stored :
  (key, stored) ∈ fold_window [] window -> item_key stored = key.
Proof.
  intros (_ & (first & Hhd & Hfix) & _)%fold_window_record.
  rewrite (same_fixed_fields_key _ _ Hfix).
  apply head_Some_elem_of in Hhd.
  by apply (list_elem_of_filter (fun it => item_key it = key)) in Hhd as [? _].
Qed.

Lemma fold_window_nil_iff window :
  fold_window [] window = [] <->
  forall it, it ∈ concat window -> (item_key it).2 = "".
Proof.
  split.
  - intros Hnil it Hin.
    destruct (decide ((item_key it).2 = "")) as [|Hne]; [done|]. exfalso.
    assert (item_key it ∈ (fold_window [] window).*1) as Hk
      by (apply fold_window_keys; eauto).
    rewrite Hnil in Hk. by apply elem_of_nil in Hk.
  - intros Hall. destruct (fold_window [] window) as [|[k v] a] eqn:Ha; [done|].
    exfalso.
    assert (k ∈ (fold_window [] window).*1) as Hk by (rewrite Ha; by left).
    apply fold_window_keys in Hk as (Hne & it & Hin & <-). by apply Hne, Hall.
Qed.

Lemma fold_window_values_keys window :
  item_key <$> (fold_window [] window).*2 = (fold_window [] window).*1.
Proof.
  pose proof (fold_window_record_key window) as Hkey.
  induction (fold_window [] window) as [|[k v] a IH]; csimpl; [done|].
  rewrite (Hkey k v) by by left.
  f_equal. apply IH. intros k' v' Hin. apply Hkey. by right.
Qed.

(** ** Aggregator: one record per key *)

(** The dedup scenario of the specification, on the aggregator alone. *)
Example merge_dedup_scenario :
  merge [] [[Sample.x_rank3]; [Sample.x_rank1]] =
  [set_hot_value (Some 80%Z) (set_rank (Some 1%Z) Sample.x_rank3)].
Proof. reflexivity. Qed.

(** C1, as stated, fails: an item without a title is in the merged output
    when the window holds no titled item, both on the aggregator alone and
    on the whole call, where the only snapshot is the one just saved. *)
Lemma untitled_item_in_merged_list :
  Sample.untitled ∈ merge [Sample.untitled] [[Sample.untitled]] /\
  (item_key Sample.untitled).2 = "" /\
  (SpiderNode_call Sample.fresh 1000 1001 [Sample.untitled]).2 =
    Ok [Sample.untitled].
Proof. split_and!; [left | reflexivity | reflexivity]. Qed.

(** C1 (amended).  When no item of the window snapshots has a title the
    merged output is the current list as it is.  Otherwise the merged
    output has exactly one record per distinct key with a non-empty title
    found in the window, no record with an empty or missing title, and
    the rank of each record is the least non-null rank and its hot value
    the greatest non-null hot value seen for its key. *)
Theorem merge_one_record_per_key (news_list : list Item)
    (window : list (list Item)) :
  ((forall it, it ∈ concat window -> (item_key it).2 = "") ->
   merge news_list window = news_list) /\
  ((exists it, it ∈ concat window /\ (item_key it).2 <> "") ->
   NoDup (item_key <$> merge news_list window) /\
   (forall key,
      key ∈ item_key <$> merge news_list window <->
      key.2 <> "" /\ exists it, it ∈ concat window /\ item_key it = key) /\
   (forall m, m ∈ merge news_list window ->
      is_min_of (rank m) (rank <$> observed (item_key m) (concat window)) /\
      is_max_of (hot_value m)
        (hot_value <$> observed (item_key m) (concat window)))).
Proof.
  unfold merge. split.
  - intros Hall. apply fold_window_nil_iff in Hall. by rewrite Hall.
  - intros (it0 & Hin0 & Hne0).
    assert (fold_window [] window <> []) as Hnil.
    { intros Hnil. apply Hne0. by eapply fold_window_nil_iff. }
    assert (merged_list_of (fold_window [] window) news_list =
            (fold_window [] window).*2) as ->.
    { by destruct (fold_window [] window). }
    rewrite fold_window_values_keys. split_and!.
    + apply fold_window_NoDup.
    + apply fold_window_keys.
    + intros m Hm. apply list_elem_of_fmap in Hm as ([k v] & -> & Hkv). simpl.
      rewrite (fold_window_record_key _ _ _ Hkv).
      apply fold_window_record in Hkv as (_ & _ & Hmin & Hmax). done.
Qed.

Lemma merge_one_record_per_key_witness :
  NoDup (item_key <$> merge [] [[Sample.x_rank3]; [Sample.x_rank1]]).
Proof.
  apply (merge_one_record_per_key [] [[Sample.x_rank3]; [Sample.x_rank1]]).
  exists Sample.x_rank3. split; [left | discriminate].
Defined.

(** ** Aggregator: idempotence and order of the fold *)

Lemma agg_set_same (a : Agg) k v : agg_get a k = Some v -> agg_set a k v = a.
Proof.
  induction a as [|[k0 v0] a IH]; simpl; [done|].
  destruct (decide (k0 = k)) as [->|Hne].
  - by intros [= ->].
  - intros Hg. by rewrite IH.
Qed.

Lemma agg_set_fresh (a : Agg) k v :
  agg_get a k = None -> agg_set a k v = (a ++ [(k, v)])%list.
Proof.
  induction a as [|[k0 v0] a IH]; simpl; [done|].
  destruct (decide (k0 = k)) as [->|Hne]; [done|].
  intros Hg. by rewrite IH.
Qed.

Lemma is_min_of_no_improvement o l x :
  is_min_of o l -> x ∈ l -> rank_improves x o = false.
Proof.
  intros Hmin Hx. destruct x as [rn|]; [|done].
  destruct o as [ro|]; simpl in *.
  - destruct Hmin as [_ Hle]. specialize (Hle _ Hx).
    apply bool_decide_eq_false. lia.
  - by specialize (Hmin _ Hx).
Qed.

Lemma is_max_of_no_improvement o l x :
  is_max_of o l -> x ∈ l -> hot_improves x o = false.
Proof.
  intros Hmax Hx. destruct x as [hn|]; [|done].
  destruct o as [ho|]; simpl in *.
  - destruct Hmax as [_ Hle]. specialize (Hle _ Hx).
    apply bool_decide_eq_false. lia.
  - by specialize (Hmax _ Hx).
Qed.

Lemma reconcile_absorbed existing it :
  rank_improves (rank it) (rank existing) = false ->
  hot_improves (hot_value it) (hot_value existing) = false ->
  reconcile existing it = existing.
Proof. unfold reconcile. by intros -> ->. Qed.

(** An item that was folded before leaves the dict as it is. *)
Lemma fold_item_absorbed window it :
  it ∈ concat window ->
  fold_item (fold_window [] window) it = fold_window [] window.
Proof.
  intros Hin. unfold fold_item.
  destruct (String.eqb_spec (item_key it).2 "") as [He|He]; [done|].
  assert (it ∈ observed (item_key it) (concat window)) as Hobs
    by (apply list_elem_of_filter; done).
  destruct (agg_get (fold_window [] window) (item_key it)) as [stored|] eqn:Hg.
  - pose proof Hg as Hkv.
    apply agg_get_Some in Hkv; [|apply fold_window_NoDup].
    apply fold_window_record in Hkv as (_ & _ & Hmin & Hmax).
    rewrite reconcile_absorbed.
    + by apply agg_set_same.
    + eapply is_min_of_no_improvement; [done|].
      apply list_elem_of_fmap. eauto.
    + eapply is_max_of_no_improvement; [done|].
      apply list_elem_of_fmap. eauto.
  - exfalso. rewrite fold_window_get, decide_False in Hg by done.
    apply fold_record_None in Hg. rewrite Hg in Hobs.
    by apply elem_of_nil in Hobs.
Qed.

Lemma fold_items_absorbed window items :
  (forall it, it ∈ items -> it ∈ concat window) ->
  fold_items (fold_window [] window) items = fold_window [] window.
Proof.
  unfold fold_items. induction items as [|it items IH]; intros Hsub; simpl.
  - done.
  - rewrite fold_item_absorbed by (apply Hsub; left).
    apply IH. intros it' Hit'. apply Hsub. by right.
Qed.

Lemma fold_window_snoc window items :
  fold_window [] (window ++ [items]) = fold_items (fold_window [] window) items.
Proof. unfold fold_window. by rewrite fold_left_app. Qed.

(** Items with distinct, titled, new keys are stored as they are, in
    order. *)
Lemma fold_items_fresh items (a : Agg) :
  NoDup (a.*1 ++ (item_key <$> items)) ->
  Forall (fun it => (item_key it).2 <> "") items ->
  fold_items a items =
  (a ++ ((fun it => (item_key it, it)) <$> items))%list.
Proof.
  unfold fold_items. revert a.
  induction items as [|it items IH]; intros a Hnd Hall; csimpl.
  - by rewrite app_nil_r.
  - apply Forall_cons in Hall as [Hit Hall].
    assert (agg_get a (item_key it) = None) as Hnone.
    { apply agg_get_None. intros Hin.
      apply NoDup_app in Hnd as (_ & Hdisj & _).
      apply (Hdisj _ Hin). left. }
    unfold fold_item at 2.
    destruct (String.eqb_spec (item_key it).2 "") as [He|_]; [done|].
    rewrite Hnone, agg_set_fresh by done.
    rewrite IH; [by rewrite <- app_assoc | | done].
    rewrite fmap_app. csimpl. by rewrite <- app_assoc.
Qed.

Lemma is_min_of_unique o1 o2 l1 l2 :
  (forall x, x ∈ l1 <-> x ∈ l2) ->
  is_min_of o1 l1 -> is_min_of o2 l2 -> o1 = o2.
Proof.
  intros Heq H1 H2. destruct o1 as [m1|], o2 as [m2|]; simpl in *.
  - destruct H1 as [Hin1 Hle1], H2 as [Hin2 Hle2].
    apply Heq in Hin1. apply Heq in Hin2.
    specialize (Hle1 _ Hin2). specialize (Hle2 _ Hin1). f_equal. lia.
  - destruct H1 as [Hin1 _]. apply Heq in Hin1. by specialize (H2 _ Hin1).
  - destruct H2 as [Hin2 _]. apply Heq in Hin2. by specialize (H1 _ Hin2).
  - done.
Qed.

Lemma is_max_of_unique o1 o2 l1 l2 :
  (forall x, x ∈ l1 <-> x ∈ l2) ->
  is_max_of o1 l1 -> is_max_of o2 l2 -> o1 = o2.
Proof.
  intros Heq H1 H2. destruct o1 as [m1|], o2 as [m2|]; simpl in *.
  - destruct H1 as [Hin1 Hle1], H2 as [Hin2 Hle2].
    apply Heq in Hin1. apply Heq in Hin2.
    specialize (Hle1 _ Hin2). specialize (Hle2 _ Hin1). f_equal. lia.
  - destruct H1 as [Hin1 _]. apply Heq in Hin1. by specialize (H2 _ Hin1).
  - destruct H2 as [Hin2 _]. apply Heq in Hin2. by specialize (H1 _ Hin2).
  - done.
Qed.

Lemma elem_of_concat {B} (x : B) (ls : list (list B)) :
  x ∈ concat ls <-> exists l, l ∈ ls /\ x ∈ l.
Proof.
  induction ls as [|l0 ls IH]; simpl.
  - split; [by intros ?%elem_of_nil | by intros (? & ?%elem_of_nil & _)].
  - rewrite elem_of_app, IH. split.
    + intros [Hx|(l & Hl & Hx)]; [exists l0; split; [left | done]|].
      exists l. split; [by right | done].
    + intros (l & [->|Hl]%elem_of_cons & Hx); [by left | right; eauto].
Qed.

Lemma concat_elem_of_perm (w1 w2 : list (list Item)) it :
  w1 ≡ₚ w2 -> it ∈ concat w1 <-> it ∈ concat w2.
Proof.
  intros Hp. rewrite !elem_of_concat.
  split; intros (s & Hs & Hit); exists s; split; try done.
  - by rewrite <- Hp.
  - by rewrite Hp.
Qed.

Lemma observed_field_perm {B} (f : Item -> B) (w1 w2 : list (list Item)) key x :
  w1 ≡ₚ w2 ->
  x ∈ f <$> observed key (concat w1) <-> x ∈ f <$> observed key (concat w2).
Proof.
  intros Hp. unfold observed. rewrite !list_elem_of_fmap.
  split; intros (it & -> & Hit); exists it; split; try done;
    apply list_elem_of_filter in Hit as [Hk Hin];
    apply list_elem_of_filter; split; try done;
    by eapply concat_elem_of_perm.
Qed.

Lemma merged_list_of_nonempty (a : Agg) news_list :
  a <> [] -> merged_list_of a news_list = a.*2.
Proof. by destruct a. Qed.

Lemma fold_window_nil_perm (w1 w2 : list (list Item)) :
  w1 ≡ₚ w2 -> fold_window [] w1 = [] -> fold_window [] w2 = [].
Proof.
  intros Hp H1. apply fold_window_nil_iff. intros it Hin.
  eapply (fold_window_nil_iff w1); [done|]. by eapply concat_elem_of_perm.
Qed.

(** C2, as stated, fails twice.  Two orders of the same two snapshots
    give records that differ in the link, a field that is written once;
    and merging the current items with a snapshot of exactly those items
    dedups them, while merging with no snapshot returns them as they
    are. *)
Lemma merge_depends_on_order_and_on_snapshot :
  [[Sample.x_rank3]; [Sample.x_rank1]] ≡ₚ
    [[Sample.x_rank1]; [Sample.x_rank3]] /\
  ~ (forall it,
       it ∈ merge [] [[Sample.x_rank3]; [Sample.x_rank1]] <->
       it ∈ merge [] [[Sample.x_rank1]; [Sample.x_rank3]]) /\
  ~ (forall it,
       it ∈ merge [Sample.x_rank3; Sample.x_rank1]
              [[Sample.x_rank3; Sample.x_rank1]] <->
       it ∈ merge [Sample.x_rank3; Sample.x_rank1] []).
Proof.
  split_and!.
  - apply perm_swap.
  - intros H.
    assert (Sample.x_rank1 ∈ merge [] [[Sample.x_rank1]; [Sample.x_rank3]])
      as Hin by left.
    apply H in Hin. vm_compute in Hin.
    apply list_elem_of_singleton in Hin. discriminate.
  - intros H.
    assert (Sample.x_rank3 ∈ merge [Sample.x_rank3; Sample.x_rank1] [])
      as Hin by left.
    apply H in Hin. vm_compute in Hin.
    apply list_elem_of_singleton in Hin. discriminate.
Qed.

(** C2 (amended).  Folding a snapshot of the window a second time changes
    nothing, and when the current items have pairwise distinct keys and
    non-empty titles, merging them with a snapshot of exactly those items
    gives the same list as merging with no snapshot.  Under a permutation
    of the snapshots, either both merges return the current list, or the
    two outputs have the same keys, one record per key, and for each key
    the same rank and the same hot value. *)
Theorem merge_idempotent_and_order (news_list : list Item)
    (window window' : list (list Item)) (snapshot : list Item) :
  window ≡ₚ window' ->
  snapshot ∈ window ->
  merge news_list (window ++ [snapshot]) = merge news_list window /\
  (NoDup (item_key <$> news_list) ->
   Forall (fun it => (item_key it).2 <> "") news_list ->
   merge news_list [news_list] = merge news_list []) /\
  ((merge news_list window = news_list /\
    merge news_list window' = news_list) \/
   (item_key <$> merge news_list window ≡ₚ
      item_key <$> merge news_list window' /\
    NoDup (item_key <$> merge news_list window) /\
    forall m m',
      m ∈ merge news_list window -> m' ∈ merge news_list window' ->
      item_key m = item_key m' ->
      rank m = rank m' /\ hot_value m = hot_value m')).
Proof.
  intros Hp Hsnap. unfold merge. split_and!.
  - rewrite fold_window_snoc, fold_items_absorbed; [done|].
    intros it Hit. apply elem_of_concat. eauto.
  - intros Hnd Hall. unfold fold_window. simpl.
    rewrite fold_items_fresh by done. simpl.
    destruct news_list as [|it0 rest]; [done|]. simpl.
    f_equal. rewrite <- list_fmap_compose.
    induction rest as [|it rest IH]; [done|]. csimpl. f_equal.
    apply IH.
    + csimpl in Hnd. apply NoDup_cons in Hnd as [Hn1 Hnd].
      apply NoDup_cons in Hnd as [Hn2 Hnd]. csimpl.
      apply NoDup_cons. split; [|done].
      intros Hin. apply Hn1. by right.
    + apply Forall_cons in Hall as [H0 Hall].
      apply Forall_cons in Hall as [_ Hall]. by apply Forall_cons.
  - destruct (decide (fold_window [] window = [])) as [Hnil|Hnil].
    + left. rewrite (fold_window_nil_perm _ _ Hp Hnil), Hnil. done.
    + right.
      assert (fold_window [] window' <> []) as Hnil'.
      { intros H. apply Hnil. by apply (fold_window_nil_perm window'). }
      rewrite !merged_list_of_nonempty by done.
      rewrite !fold_window_values_keys. split_and!.
      * apply NoDup_Permutation; try apply fold_window_NoDup.
        intros key. rewrite !fold_window_keys.
        split; intros (Hk & it & Hin & Hit); (split; [done|]);
          exists it; (split; [|done]); by eapply concat_elem_of_perm.
      * apply fold_window_NoDup.
      * intros m m' Hm Hm' Hkey.
        apply list_elem_of_fmap in Hm as ([k v] & -> & Hkv).
        apply list_elem_of_fmap in Hm' as ([k' v'] & -> & Hkv').
        simpl in *.
        rewrite (fold_window_record_key _ _ _ Hkv) in Hkey.
        rewrite (fold_window_record_key _ _ _ Hkv') in Hkey. subst k'.
        apply fold_window_record in Hkv as (_ & _ & Hmin & Hmax).
        apply fold_window_record in Hkv' as (_ & _ & Hmin' & Hmax').
        split.
        -- eapply is_min_of_unique; [|done|done].
           intros x. by apply observed_field_perm.
        -- eapply is_max_of_unique; [|done|done].
           intros x. by apply observed_field_perm.
Qed.

Lemma merge_idempotent_and_order_witness :
  merge [] ([[Sample.x_rank3]; [Sample.x_rank1]] ++ [[Sample.x_rank3]]) =
  merge [] [[Sample.x_rank3]; [Sample.x_rank1]].
Proof.
  apply (merge_idempotent_and_order []
           [[Sample.x_rank3]; [Sample.x_rank1]]
           [[Sample.x_rank1]; [Sample.x_rank3]] [Sample.x_rank3]).
  - apply perm_swap.
  - left.
Defined.

(** ** Snapshot store: scanning the directory *)

Lemma scan_app cutoff (a : Agg) ps1 ps2 :
  scan cutoff a (ps1 ++ ps2) =
  a' ← scan cutoff a ps1; scan cutoff a' ps2.
Proof.
  revert a. induction ps1 as [|p ps1 IH]; intros a; simpl; [done|].
  destruct (scan_file cutoff a p) as [a'|e]; simpl; [apply IH | done].
Qed.

Lemma scan_file_unparsable cutoff (a : Agg) p :
  stamp p = None -> scan_file cutoff a p = Ok a.
Proof. unfold scan_file. by intros ->. Qed.

(** A file that is opened and cannot be read stops the scan. *)
Lemma scan_file_unreadable cutoff (a : Agg) p s :
  stamp p = Some s ->
  dt_lt (strptime s) cutoff = Ok false ->
  content p = None ->
  scan_file cutoff a p = Raise ValueError.
Proof. unfold scan_file, load_items. by intros -> -> ->. Qed.

(** A file that is opened and read is folded. *)
Lemma scan_file_folded cutoff (a : Agg) p s items :
  stamp p = Some s ->
  dt_lt (strptime s) cutoff = Ok false ->
  content p = Some items ->
  scan_file cutoff a p = Ok (fold_items a items).
Proof. unfold scan_file, load_items. by intros -> -> ->. Qed.

(** A file older than the cutoff is passed over, whatever it holds. *)
Lemma scan_file_older cutoff (a : Agg) p s :
  stamp p = Some s ->
  dt_lt (strptime s) cutoff = Ok true ->
  scan_file cutoff a p = Ok a.
Proof. unfold scan_file. by intros -> ->. Qed.

Lemma merge_window_never_raises cutoff ps news_list :
  exists merged, merge_window cutoff ps news_list = Ok merged.
Proof.
  unfold merge_window.
  destruct (scan cutoff [] ps) as [a|e]; simpl; eauto.
Qed.

Lemma merge_window_scan_raises cutoff ps news_list e :
  scan cutoff [] ps = Raise e -> merge_window cutoff ps news_list = Ok news_list.
Proof. unfold merge_window. by intros ->. Qed.

(** The comparison of a file stamp with an aware cutoff raises. *)
Lemma dt_lt_naive_aware s cutoff off :
  tzinfo cutoff = Some off -> dt_lt (strptime s) cutoff = Raise TypeError.
Proof. unfold dt_lt. simpl. by intros ->. Qed.

Lemma scan_aware cutoff off (a : Agg) ps :
  tzinfo cutoff = Some off ->
  scan cutoff a ps = Ok a \/ scan cutoff a ps = Raise TypeError.
Proof.
  intros Haware. induction ps as [|p ps IH]; simpl; [by left|].
  unfold scan_file. destruct (stamp p) as [s|]; simpl; [|done].
  rewrite (dt_lt_naive_aware _ _ _ Haware). by right.
Qed.

(** With an aware cutoff the merged list is the current list, whatever
    the directory holds. *)
Lemma merge_window_aware cutoff off ps news_list :
  tzinfo cutoff = Some off -> merge_window cutoff ps news_list = Ok news_list.
Proof.
  intros Haware. unfold merge_window.
  by destruct (scan_aware cutoff off [] ps Haware) as [-> | ->].
Qed.

(** The call always hands back the current list. *)
Lemma SpiderNode_call_merged st t_save t_now news_list :
  (SpiderNode_call st t_save t_now news_list).2 = Ok news_list.
Proof.
  unfold SpiderNode_call.
  destruct (save_snapshot _ _ _) as [st1 saved]. simpl.
  by apply (merge_window_aware _ (8 * 3600)%Z).
Qed.


(** ** C3: files that cannot be used *)

(** C3, as stated, fails: with an hour-old good snapshot and a file of
    invalid JSON in the directory, in either glob order, the merged list
    is the (here empty) current list and not the items of the good
    snapshot.  This holds for the cutoff of the run and also when the
    cutoff is read as a naive datetime. *)
Lemma corrupt_file_discards_history :
  content SampleStore.hour_old = Some [Sample.x_rank1] /\
  merge_window SampleStore.cutoff_run
    [SampleStore.hour_old; SampleStore.corrupt] [] = Ok [] /\
  merge_window SampleStore.cutoff_run
    [SampleStore.corrupt; SampleStore.hour_old] [] = Ok [] /\
  merge_window SampleStore.cutoff_naive
    [SampleStore.hour_old; SampleStore.corrupt] [] = Ok [] /\
  merge_window SampleStore.cutoff_naive
    [SampleStore.corrupt; SampleStore.hour_old] [] = Ok [].
Proof. split_and!; reflexivity. Qed.

(** C3 (amended).  A file whose name holds no parsable timestamp is
    skipped: the merged list is the one obtained without that file, and
    no error leaves the load.  A file that is opened and whose content
    cannot be read is not skipped: the merge is given up and the merged
    list is the current list. *)
Theorem unparsable_name_skipped_unreadable_content_aborts
    (cutoff : datetime) (before after : list SnapshotFile)
    (p : SnapshotFile) (news_list : list Item) :
  stamp p = None ->
  merge_window cutoff (before ++ p :: after) news_list =
    merge_window cutoff (before ++ after) news_list /\
  (exists merged,
     merge_window cutoff (before ++ p :: after) news_list = Ok merged) /\
  (forall q s aggregated,
     scan cutoff [] before = Ok aggregated ->
     stamp q = Some s ->
     dt_lt (strptime s) cutoff = Ok false ->
     content q = None ->
     merge_window cutoff (before ++ q :: after) news_list = Ok news_list).
Proof.
  intros Hp. split_and!.
  - unfold merge_window. rewrite !scan_app.
    destruct (scan cutoff [] before) as [a|e]; simpl; [|done].
    by rewrite (scan_file_unparsable _ _ _ Hp).
  - apply merge_window_never_raises.
  - intros q s a Hbefore Hs Hlt Hq.
    apply (merge_window_scan_raises _ _ _ ValueError).
    rewrite scan_app, Hbefore. simpl.
    by rewrite (scan_file_unreadable _ _ _ _ Hs Hlt Hq).
Qed.

Lemma unparsable_name_skipped_witness :
  merge_window SampleStore.cutoff_run
    ([SampleStore.hour_old] ++ SampleStore.foreign :: []) [Sample.y_item] =
  merge_window SampleStore.cutoff_run
    ([SampleStore.hour_old] ++ []) [Sample.y_item].
Proof.
  apply (unparsable_name_skipped_unreadable_content_aborts
           SampleStore.cutoff_run [SampleStore.hour_old] []
           SampleStore.foreign [Sample.y_item]).
  reflexivity.
Defined.

(** ** C4: the look-back window *)

(** C4 (code defect).  A snapshot written one hour before the run is
    inside the 24-hour window, yet the call does not fold it: the file
    stamp is a naive datetime, the cutoff an aware one, their comparison
    raises [TypeError], and the merge falls back to the current list.
    With the cutoff read as a naive datetime the same directory gives
    the items of both snapshots. *)
Theorem in_window_snapshot_not_folded :
  (SampleStore.wall_run - 24 * 3600 <= SampleStore.wall_run - 3600)%Z /\
  SampleStore.hour_old ∈
    files (SpiderNode_call SampleStore.with_history SampleStore.t_run
             (SampleStore.t_run + 1) [Sample.y_item]).1.1 /\
  (SpiderNode_call SampleStore.with_history SampleStore.t_run
     (SampleStore.t_run + 1) [Sample.y_item]).1.2 = [MergeFailed TypeError] /\
  (SpiderNode_call SampleStore.with_history SampleStore.t_run
     (SampleStore.t_run + 1) [Sample.y_item]).2 = Ok [Sample.y_item] /\
  merge_window SampleStore.cutoff_naive
    (files (SpiderNode_call SampleStore.with_history SampleStore.t_run
              (SampleStore.t_run + 1) [Sample.y_item]).1.1)
    [Sample.y_item] = Ok [Sample.x_rank1; Sample.y_item].
Proof. split_and!; [vm_compute; discriminate | left | reflexivity..]. Qed.

(** With a cutoff for which the comparison is defined, the scan folds
    exactly the readable files that are not older than the cutoff. *)
Lemma scan_naive_window c (a : Agg) ps :
  Forall (fun p => is_Some (content p)) ps ->
  scan (strptime c) a ps = Ok (fold_window a (omap (window_items c) ps)).
Proof.
  intros Hall. revert a.
  induction Hall as [|p ps [items Hp] _ IH]; intros a; simpl; [done|].
  unfold scan_file, load_items, dt_lt, window_items. rewrite Hp.
  destruct (stamp p) as [s|]; simpl; [|apply IH].
  destruct (s <? c)%Z; simpl; apply IH.
Qed.

(** The load and the aggregator: with such a cutoff the merged list of
    the directory is the merge of the items of its window. *)
Lemma merge_window_naive c ps news_list :
  Forall (fun p => is_Some (content p)) ps ->
  merge_window (strptime c) ps news_list =
  Ok (merge news_list (omap (window_items c) ps)).
Proof.
  intros Hall. unfold merge_window, merge.
  by rewrite (scan_naive_window c [] ps Hall).
Qed.

(** ** C5: a save that fails *)

(** C5, as stated, fails: on a directory that cannot be written the save
    raises, and the call still returns normally with the current list. *)
Lemma save_failure_not_surfaced :
  (save_snapshot SampleStore.read_only
     (get_beijing_time SampleStore.t_run) [Sample.y_item]).2 =
    Raise OSError /\
  (SpiderNode_call SampleStore.read_only SampleStore.t_run
     (SampleStore.t_run + 1) [Sample.y_item]).2 = Ok [Sample.y_item].
Proof. split; reflexivity. Qed.

(** C5 (amended).  A failure to create the directory or to write the
    file is caught inside the call: it is printed, the call goes on to
    the merge and returns normally; when the directory or the file could
    not be created the files already stored are left as they were. *)
Theorem save_failure_printed_and_swallowed (st : Storage)
    (t_save t_now : Z) (news_list : list Item) (e : exn) :
  (save_snapshot st (get_beijing_time t_save) news_list).2 = Raise e ->
  SaveFailed e ∈ (SpiderNode_call st t_save t_now news_list).1.2 /\
  (exists merged,
     (SpiderNode_call st t_save t_now news_list).2 = Ok merged) /\
  (mkdir_ok st = false \/ open_ok st = false ->
   files (SpiderNode_call st t_save t_now news_list).1.1 = files st).
Proof.
  intros Hsave. unfold SpiderNode_call.
  destruct (save_snapshot st (get_beijing_time t_save) news_list)
    as [st1 saved] eqn:Hs.
  simpl in *. subst saved. split_and!.
  - left.
  - apply merge_window_never_raises.
  - unfold save_snapshot in Hs. intros [Hm|Ho].
    + rewrite Hm in Hs. simpl in Hs. by injection Hs as <-.
    + rewrite Ho in Hs. destruct (mkdir_ok st); simpl in Hs;
        by injection Hs as <-.
Qed.

Lemma save_failure_printed_and_swallowed_witness :
  SaveFailed OSError ∈
    (SpiderNode_call SampleStore.read_only SampleStore.t_run
       (SampleStore.t_run + 1) [Sample.y_item]).1.2.
Proof.
  apply (save_failure_printed_and_swallowed SampleStore.read_only
           SampleStore.t_run (SampleStore.t_run + 1) [Sample.y_item] OSError).
  reflexivity.
Defined.

(** ** C6: the merge never raises *)



(** ** C10: ranks given by the scraper *)

Lemma append_entries_lookup sid sname entries idx i it :
  append_entries sid sname idx entries !! i = Some it ->
  rank it = Some (idx + Z.of_nat i)%Z /\
  source_id it = Some sid /\
  exists entry,
    entries !! i = Some (Some entry) /\ title it = get (raw_title entry).
Proof.
  revert idx i. induction entries as [|[entry|] entries IH];
    intros idx i; simpl; [done| |done].
  destruct i as [|i]; simpl.
  - intros [= <-]. simpl. split_and!; [f_equal; lia | done | eauto].
  - intros Hi. apply IH in Hi as (Hr & Hs & Hentry).
    split_and!; [rewrite Hr; f_equal; lia | done | done].
Qed.

Lemma append_entries_length sid sname entries idx :
  length (append_entries sid sname idx entries) <= length entries.
Proof.
  revert idx. induction entries as [|[entry|] entries IH];
    intros idx; simpl; [lia| |lia].
  specialize (IH (idx + 1)%Z). lia.
Qed.

(** C10.  For every platform at most 30 items are kept, all from the
    first 30 fetched entries; the rank of the kept item at position [i]
    (from 0) is [i + 1], whatever the entry holds, and its title is the
    title of the fetched entry at that position.  Every rank in the
    scraped list is between 1 and 30. *)
Theorem scraper_ranks_are_positions (sources : list (string * string))
    (fetch_data : string -> Response) :
  (forall sid sname,
     length (scrape_platform sid sname (fetch_data sid)) <= 30 /\
     forall i it,
       scrape_platform sid sname (fetch_data sid) !! i = Some it ->
       i < 30 /\
       rank it = Some (Z.of_nat i + 1)%Z /\
       exists items entry,
         fetch_data sid = Items items /\
         items !! i = Some (Some entry) /\
         title it = get (raw_title entry)) /\
  (forall it, it ∈ scrape sources fetch_data ->
     exists r, rank it = Some r /\ (1 <= r <= 30)%Z).
Proof.
  assert (forall sid sname i it,
            scrape_platform sid sname (fetch_data sid) !! i = Some it ->
            i < 30 /\
            rank it = Some (Z.of_nat i + 1)%Z /\
            exists items entry,
              fetch_data sid = Items items /\
              items !! i = Some (Some entry) /\
              title it = get (raw_title entry)) as Hpos.
  { intros sid sname i it. unfold scrape_platform.
    destruct (fetch_data sid) as [| |items]; [done..|].
    intros (Hr & _ & entry & Hentry & Ht)%append_entries_lookup.
    apply lookup_take_Some in Hentry as [Hentry Hi].
    split_and!; [done | rewrite Hr; f_equal; lia | eauto]. }
  split.
  - intros sid sname. split; [|apply Hpos].
    unfold scrape_platform. destruct (fetch_data sid) as [| |items];
      simpl; [lia..|].
    etrans; [apply append_entries_length|].
    rewrite length_take. lia.
  - intros it Hin. unfold scrape in Hin.
    apply list_elem_of_In, in_flat_map in Hin as ([sid sname] & _ & Hin).
    apply list_elem_of_In, list_elem_of_lookup in Hin as [i Hi].
    apply Hpos in Hi as (Hlt & Hr & _).
    exists (Z.of_nat i + 1)%Z. split; [done | lia].
Qed.

(** ** The stable sort *)

Section StableSortFacts.
Context {A K : Type} (key : A -> K) (ltb : K -> K -> bool).

Hypothesis ltb_asym : forall a b, ltb a b = true -> ltb b a = false.
Hypothesis geb_trans :
  forall a b c, ltb b a = false -> ltb c b = false -> ltb c a = false.

Lemma insert_sorted_perm x l : insert_sorted key ltb x l ≡ₚ x :: l.
Proof.
  induction l as [|y l IH]; simpl; [done|].
  destruct (ltb (key y) (key x)); [|done].
  rewrite IH. apply perm_swap.
Qed.

Lemma sort_by_key_perm l : sort_by_key key ltb l ≡ₚ l.
Proof.
  induction l as [|x l IH]; simpl; [done|].
  by rewrite insert_sorted_perm, IH.
Qed.

Lemma insert_sorted_sorted x l :
  StronglySorted (precedes key ltb) l ->
  StronglySorted (precedes key ltb) (insert_sorted key ltb x l).
Proof.
  induction 1 as [|y l Hl IH Hy]; simpl.
  - repeat constructor.
  - destruct (ltb (key y) (key x)) eqn:Hyx.
    + constructor; [done|].
      apply Forall_forall. intros z Hz.
      rewrite insert_sorted_perm in Hz.
      apply elem_of_cons in Hz as [->|Hz].
      * unfold precedes. by apply ltb_asym.
      * rewrite Forall_forall in Hy. by apply Hy.
    + constructor; [by constructor|].
      constructor; [done|].
      eapply Forall_impl; [apply Hy|].
      intros z Hz. unfold precedes in *. by eapply geb_trans.
Qed.

Lemma sort_by_key_sorted l : StronglySorted (precedes key ltb) (sort_by_key key ltb l).
Proof.
  induction l as [|x l IH]; simpl; [constructor|].
  by apply insert_sorted_sorted.
Qed.

Context `{!EqDecision K}.
Hypothesis ltb_irrefl : forall a, ltb a a = false.

Lemma insert_sorted_stable k x l :
  filter (fun y => key y = k) (insert_sorted key ltb x l) =
  filter (fun y => key y = k) (x :: l).
Proof.
  induction l as [|y l IH]; simpl; [done|].
  destruct (ltb (key y) (key x)) eqn:Hyx; [|done].
  rewrite (filter_cons _ y), IH, !(filter_cons _ x), !(filter_cons _ y).
  destruct (decide (key y = k)) as [Hy|Hy]; [|done].
  destruct (decide (key x = k)) as [Hx|Hx]; [|done].
  rewrite Hy, Hx, ltb_irrefl in Hyx. done.
Qed.

(** Elements with the same key leave the sort in the order in which
    they entered it. *)
Lemma sort_by_key_stable k l :
  filter (fun y => key y = k) (sort_by_key key ltb l) =
  filter (fun y => key y = k) l.
Proof.
  induction l as [|x l IH]; simpl; [done|].
  rewrite insert_sorted_stable, !filter_cons, IH. done.
Qed.
End StableSortFacts.

(** ** C8: grouping topics by category *)

Lemma category_order_NoDup : NoDup category_order.
Proof. apply (bool_decide_unpack _). vm_compute. exact I. Qed.

Lemma catch_all_in_order : catch_all ∈ category_order.
Proof. apply (bool_decide_unpack _). vm_compute. exact I. Qed.

Lemma empty_buckets_lookup c :
  empty_buckets !! c = if decide (c ∈ category_order) then Some [] else None.
Proof.
  unfold empty_buckets. destruct (decide (c ∈ category_order)) as [Hin|Hin].
  - apply elem_of_list_to_map_1.
    + rewrite <- list_fmap_compose.
      rewrite (list_fmap_ext _ id category_order) by done.
      rewrite list_fmap_id. apply category_order_NoDup.
    + apply list_elem_of_fmap. by exists c.
  - apply not_elem_of_list_to_map_1.
    rewrite <- list_fmap_compose.
    rewrite (list_fmap_ext _ id category_order) by done.
    by rewrite list_fmap_id.
Qed.

Lemma grouped_bucket_of m seen t :
  grouped m seen -> bucket_of m t = coerced_category t.
Proof.
  intros Hm. unfold bucket_of, coerced_category.
  rewrite (Hm (str_or (category t) catch_all)).
  destruct (decide (_ ∈ category_order)) as [Hin|Hin].
  - rewrite bool_decide_true by eauto. by rewrite bool_decide_true.
  - rewrite bool_decide_false by (by intros [? ?]).
    by rewrite bool_decide_false.
Qed.

Lemma coerced_category_in_order t : coerced_category t ∈ category_order.
Proof.
  unfold coerced_category. case_bool_decide; [done | apply catch_all_in_order].
Qed.

Lemma grouped_file_topic m seen t :
  grouped m seen -> grouped (file_topic m t) (seen ++ [t]).
Proof.
  intros Hm c. unfold file_topic.
  rewrite (grouped_bucket_of m seen t Hm), filter_app, filter_cons, filter_nil.
  destruct (decide (coerced_category t = c)) as [<-|Hne].
  - rewrite lookup_alter_eq, (Hm (coerced_category t)).
    destruct (decide (coerced_category t ∈ category_order)) as [|Hout];
      [done | destruct Hout; apply coerced_category_in_order].
  - rewrite lookup_alter_ne, (Hm c), app_nil_r by done. done.
Qed.

Lemma grouped_fold topics m seen :
  grouped m seen -> grouped (fold_left file_topic topics m) (seen ++ topics).
Proof.
  revert m seen. induction topics as [|t topics IH]; intros m seen Hm; simpl.
  - by rewrite app_nil_r.
  - rewrite cons_middle, app_assoc. by apply IH, grouped_file_topic.
Qed.

Lemma group_by_category_lookup topics c :
  group_by_category topics !! c =
  if decide (c ∈ category_order)
  then Some (filter (fun t => coerced_category t = c) topics)
  else None.
Proof.
  apply (grouped_fold topics empty_buckets []).
  intros c'. rewrite empty_buckets_lookup. by destruct (decide _).
Qed.

Lemma sum_list_fmap_add {B} (f g : B -> nat) (l : list B) :
  sum_list ((fun c => f c + g c) <$> l) =
  sum_list (f <$> l) + sum_list (g <$> l).
Proof. induction l as [|c l IH]; csimpl; [done|]. rewrite IH. lia. Qed.

Lemma sum_indicator_out (cats : list string) (x : string) :
  x ∉ cats ->
  sum_list ((fun c => if decide (x = c) then 1 else 0) <$> cats) = 0.
Proof.
  induction cats as [|c cats IH]; csimpl; [done|].
  intros [Hne Hout]%not_elem_of_cons.
  by rewrite decide_False, IH.
Qed.

Lemma sum_indicator_in (cats : list string) (x : string) :
  NoDup cats -> x ∈ cats ->
  sum_list ((fun c => if decide (x = c) then 1 else 0) <$> cats) = 1.
Proof.
  induction cats as [|c cats IH]; csimpl.
  - by intros _ ?%elem_of_nil.
  - intros [Hc Hnd]%NoDup_cons Hin.
    destruct (decide (x = c)) as [->|Hne].
    + by rewrite sum_indicator_out.
    + apply elem_of_cons in Hin as [?|Hin]; [done|]. by rewrite IH.
Qed.

Lemma one_bucket_per_topic (cats : list string) (topics : list Topic) :
  NoDup cats ->
  (forall t, t ∈ topics -> coerced_category t ∈ cats) ->
  sum_list
    ((fun c => length (filter (fun t => coerced_category t = c) topics))
       <$> cats) = length topics.
Proof.
  intros Hnd. induction topics as [|t topics IH]; intros Hin.
  - clear Hnd Hin. induction cats as [|c cats IHc]; [done|].
    rewrite fmap_cons. simpl. exact IHc.
  - replace (length (t :: topics)) with (1 + length topics) by done.
    rewrite <- IH by (intros t' Ht'; apply Hin; by right).
    rewrite <- (sum_indicator_in cats (coerced_category t) Hnd)
      by (apply Hin; left).
    rewrite <- sum_list_fmap_add. f_equal.
    apply list_fmap_ext. intros _ c _. simpl.
    rewrite filter_cons. by destruct (decide (coerced_category t = c)).
Qed.

(** C8.  The grouping has exactly the 11 buckets of the taxonomy.  The
    bucket of a category holds, in their input order, exactly the topics
    whose category, after coercion, is that category; a category string
    outside the taxonomy is coerced to the catch-all, so every topic is
    in one bucket and the bucket sizes add up to the number of topics. *)
Theorem group_by_category_closed_and_stable (topics : list Topic) :
  length category_order = 11 /\
  NoDup category_order /\
  (forall c, is_Some (group_by_category topics !! c) <-> c ∈ category_order) /\
  (forall c, c ∈ category_order ->
     group_by_category topics !! c =
     Some (filter (fun t => coerced_category t = c) topics)) /\
  (forall t,
     coerced_category t ∈ category_order /\
     (str_or (category t) catch_all ∈ category_order ->
      coerced_category t = str_or (category t) catch_all) /\
     (str_or (category t) catch_all ∉ category_order ->
      coerced_category t = catch_all)) /\
  sum_list
    ((fun c => length (default [] (group_by_category topics !! c)))
       <$> category_order) = length topics.
Proof.
  split_and!.
  - reflexivity.
  - apply category_order_NoDup.
  - intros c. rewrite group_by_category_lookup.
    destruct (decide (c ∈ category_order)); split; try done; try by eauto.
  - intros c Hc. by rewrite group_by_category_lookup, decide_True.
  - intros t. split_and!.
    + apply coerced_category_in_order.
    + intros Hin. unfold coerced_category. by rewrite bool_decide_true.
    + intros Hin. unfold coerced_category. by rewrite bool_decide_false.
  - rewrite <- (one_bucket_per_topic category_order topics).
    + apply (f_equal sum_list). apply list_fmap_ext. intros i c Hc.
      apply list_elem_of_lookup_2 in Hc.
      by rewrite group_by_category_lookup, decide_True.
    + apply category_order_NoDup.
    + intros t _. apply coerced_category_in_order.
Qed.

(** ** C7: the order of the categories *)












Lemma index_of_lookup (c : string) (l : list string) :
  c ∈ l -> l !! index_of c l = Some c.
Proof.
  induction l as [|x l IH]; simpl.
  - by intros ?%elem_of_nil.
  - intros Hin. destruct (decide (x = c)) as [->|Hne]; [done|]. simpl.
    apply elem_of_cons in Hin as [?|?]; [done | by apply IH].
Qed.



Lemma StronglySorted_strict_all {B} (R R' : B -> B -> Prop) (l : list B) :
  (forall x y, R x y -> R' x y) ->
  StronglySorted R l -> StronglySorted R' l.
Proof.
  intros Himp Hs. induction Hs as [|x l Hs IH Hx]; constructor; [done|].
  eapply Forall_impl; [apply Hx | apply Himp].
Qed.



Example order_categories_sample :
  order_categories (group_by_category SampleTopics.topics) =
  ["科教类舆论"; "经济类舆论"; "其他"].
Proof. vm_compute. reflexivity. Qed.


(** ** C9: the rows of the raw table *)

(** *** The platform index *)

Lemma index_of_absent (c : string) (l : list string) :
  c ∉ l -> index_of c l = length l.
Proof.
  induction l as [|x l IH]; simpl; [done|].
  intros [Hne Hout]%not_elem_of_cons.
  rewrite decide_False by done. by rewrite IH.
Qed.

Lemma index_of_present (c : string) (l : list string) :
  c ∈ l -> index_of c l < length l.
Proof. intros Hin%index_of_lookup. by apply lookup_lt_Some in Hin. Qed.

Lemma index_fold_absent (l : list string) (g : nat -> nat)
    (m : gmap string nat) sid :
  sid ∉ l ->
  fold_left index_insert (imap (fun i pid => (g i, pid)) l) m !! sid
  = m !! sid.
Proof.
  revert g m. induction l as [|x l IH]; intros g m Hout; simpl; [done|].
  apply not_elem_of_cons in Hout as [Hne Hout].
  rewrite (IH (g ∘ S)) by done.
  unfold index_insert. simpl. by rewrite lookup_insert_ne.
Qed.

Lemma index_fold_present (l : list string) (g : nat -> nat)
    (m : gmap string nat) sid :
  NoDup l -> sid ∈ l ->
  fold_left index_insert (imap (fun i pid => (g i, pid)) l) m !! sid
  = Some (g (index_of sid l)).
Proof.
  revert g m. induction l as [|x l IH]; intros g m Hnd Hin; simpl.
  - by apply elem_of_nil in Hin.
  - apply NoDup_cons in Hnd as [Hx Hnd].
    destruct (decide (x = sid)) as [->|Hne].
    + rewrite (index_fold_absent l (g ∘ S)) by done.
      unfold index_insert. simpl. by rewrite lookup_insert_eq.
    + apply elem_of_cons in Hin as [?|Hin]; [done|].
      by rewrite (IH (g ∘ S)).
Qed.

Lemma index_fold_size (l : list string) (g : nat -> nat)
    (m : gmap string nat) :
  NoDup l -> (forall x, x ∈ l -> m !! x = None) ->
  size (fold_left index_insert (imap (fun i pid => (g i, pid)) l) m)
  = size m + length l.
Proof.
  revert g m. induction l as [|x l IH]; intros g m Hnd Hfresh; simpl.
  - lia.
  - apply NoDup_cons in Hnd as [Hx Hnd].
    rewrite (IH (g ∘ S)); [|done|].
    + unfold index_insert. simpl.
      rewrite map_size_insert_None by (apply Hfresh; left). lia.
    + intros y Hy. unfold index_insert. simpl.
      rewrite lookup_insert_ne by (by intros ->).
      apply Hfresh. by right.
Qed.

(** The sort key of a row is the place of its platform in the priority
    list, and the length of the list for a platform that is not in it. *)
Lemma platform_sort_key_index (order : list string) (r : Item) :
  NoDup order ->
  platform_sort_key (platform_index_of order) r =
  index_of (item_sid r) order.
Proof.
  intros Hnd. unfold platform_sort_key, platform_index_of.
  destruct (decide (item_sid r ∈ order)) as [Hin|Hout].
  - by rewrite (index_fold_present order id ∅ _ Hnd Hin).
  - rewrite (index_fold_absent order id ∅ _ Hout), lookup_empty. simpl.
    rewrite (index_fold_size order id ∅ Hnd) by (intros; apply lookup_empty).
    rewrite map_size_empty, index_of_absent by done. done.
Qed.

(** *** The order on row keys *)

Lemma row_key_ltb_spec a b :
  row_key_ltb a b = true <-> a.1 < b.1 \/ (a.1 = b.1 /\ (a.2 < b.2)%Z).
Proof.
  unfold row_key_ltb. destruct (decide (a.1 = b.1)) as [Heq|Hne].
  - rewrite bool_decide_eq_true. split; [by right | intros [?|[_ ?]]; [lia|done]].
  - rewrite bool_decide_eq_true. split; [by left | intros [?|[? _]]; done].
Qed.

Lemma row_key_ltb_false a b : row_key_ltb a b = false <-> row_key_le b a.
Proof.
  rewrite <- not_true_iff_false, row_key_ltb_spec. unfold row_key_le.
  split.
  - intros Hn. destruct (decide (b.1 < a.1)); [by left|]. right.
    assert (a.1 = b.1) as Heq by lia. split; [done|].
    destruct (decide (a.2 < b.2)%Z); [|lia]. destruct Hn. by right.
  - intros [?|[? ?]] [?|[? ?]]; lia.
Qed.

Lemma row_key_ltb_asym a b :
  row_key_ltb a b = true -> row_key_ltb b a = false.
Proof.
  rewrite row_key_ltb_spec, row_key_ltb_false. unfold row_key_le.
  intros [?|[? ?]]; [by left | right; lia].
Qed.

Lemma row_key_geb_trans a b c :
  row_key_ltb b a = false -> row_key_ltb c b = false ->
  row_key_ltb c a = false.
Proof.
  rewrite !row_key_ltb_false. unfold row_key_le.
  intros [?|[? ?]] [?|[? ?]]; [left; lia.. | right; lia].
Qed.

Lemma row_key_ltb_irrefl a : row_key_ltb a a = false.
Proof. apply row_key_ltb_false. right. lia. Qed.

(** *** Grouping by platform *)

Lemma item_sid_nonempty n : item_sid n <> "".
Proof.
  unfold item_sid, str_or.
  destruct (source_id n) as [s|]; [destruct (String.eqb_spec s "")|];
    try done;
    (destruct (source n) as [s'|]; [destruct (String.eqb_spec s' "")|];
     done).
Qed.

Lemma item_sid_set_source sid name n :
  sid <> "" -> item_sid (set_source sid name n) = sid.
Proof.
  intros Hne. unfold item_sid, str_or. simpl.
  by destruct (String.eqb_spec sid "").
Qed.

Lemma platforms_get_None (P : Platforms) sid :
  platforms_get P sid = None <-> sid ∉ P.*1.
Proof.
  induction P as [|[s g] P IH]; csimpl.
  - split; [intros _; apply not_elem_of_nil | done].
  - rewrite not_elem_of_cons. destruct (decide (s = sid)) as [->|Hne].
    + split; [done | intros [? _]; done].
    + rewrite IH. split; [intros ?; split; [congruence | done] | intros [_ ?]; done].
Qed.

Lemma add_to_platform_get (P : Platforms) sid sname n s :
  platforms_get (add_to_platform P sid sname n) s =
  if decide (s = sid)
  then Some match platforms_get P sid with
            | Some (name, items) => (name, (items ++ [n])%list)
            | None => (sname, [n])
            end
  else platforms_get P s.
Proof.
  induction P as [|[s0 [name0 items0]] P IH]; simpl.
  - destruct (decide (sid = s)) as [->|Hne].
    + by rewrite decide_True.
    + by rewrite decide_False.
  - destruct (decide (s0 = sid)) as [->|Hne]; simpl.
    + destruct (decide (sid = s)) as [->|Hne'].
      * by rewrite decide_True.
      * by rewrite decide_False.
    + destruct (decide (s0 = s)) as [->|Hne'].
      * by rewrite decide_False.
      * apply IH.
Qed.

Lemma add_to_platform_keys (P : Platforms) sid sname n :
  (add_to_platform P sid sname n).*1 =
  match platforms_get P sid with
  | Some _ => P.*1
  | None => (P.*1 ++ [sid])%list
  end.
Proof.
  induction P as [|[s0 [name0 items0]] P IH]; csimpl; [done|].
  destruct (decide (s0 = sid)) as [->|Hne]; csimpl; [done|].
  rewrite IH. by destruct (platforms_get P sid).
Qed.

Lemma platforms_of_step (P : Platforms) seen n :
  platforms_of P seen ->
  platforms_of (add_to_platform P (item_sid n) (display_name n) n)
    (seen ++ [n]).
Proof.
  intros [Hnd Hget]. split.
  - rewrite add_to_platform_keys.
    destruct (platforms_get P (item_sid n)) eqn:Hg; [done|].
    apply NoDup_app. split_and!; [done | | apply NoDup_singleton].
    intros x Hx ->%list_elem_of_singleton. by apply platforms_get_None in Hg.
  - intros sid. rewrite add_to_platform_get. unfold group_name.
    rewrite filter_app, filter_cons, filter_nil.
    destruct (decide (sid = item_sid n)) as [->|Hne].
    + rewrite decide_True by done. specialize (Hget (item_sid n)).
      destruct (platforms_get P (item_sid n)) as [[name items]|].
      * destruct Hget as (-> & Hne & ->). split_and!; [done | |].
        -- by destruct (filter _ seen).
        -- unfold group_name. by destruct (filter _ seen).
      * rewrite Hget. done.
    + rewrite decide_False by done. rewrite app_nil_r.
      specialize (Hget sid). by destruct (platforms_get P sid) as [[name items]|].
Qed.

Lemma group_platforms_spec news_list :
  platforms_of (group_platforms news_list) news_list.
Proof.
  unfold group_platforms.
  assert (forall l (P : Platforms) seen,
            platforms_of P seen ->
            platforms_of
              (fold_left
                 (fun platforms n =>
                    add_to_platform platforms (item_sid n) (display_name n) n)
                 l P) (seen ++ l)) as Hfold.
  { induction l as [|n l IH]; intros P seen HP; simpl.
    - by rewrite app_nil_r.
    - rewrite cons_middle, app_assoc. by apply IH, platforms_of_step. }
  apply (Hfold news_list [] []). split; [apply NoDup_nil_2 | done].
Qed.

Lemma build_rows_filter (P : Platforms) sid :
  NoDup P.*1 ->
  Forall (fun g => g.1 <> "") P ->
  filter (fun r => item_sid r = sid) (build_rows P) =
  match platforms_get P sid with
  | Some (name, items) => set_source sid name <$> items
  | None => []
  end.
Proof.
  unfold build_rows.
  induction P as [|[s0 [name0 items0]] P IH]; csimpl; intros Hnd Hall;
    [done|].
  apply NoDup_cons in Hnd as [Hs0 Hnd].
  apply Forall_cons in Hall as [Hne0 Hall]. simpl in Hne0.
  rewrite filter_app, (IH Hnd Hall).
  destruct (decide (s0 = sid)) as [->|Hne].
  - apply platforms_get_None in Hs0. rewrite Hs0, app_nil_r.
    clear -Hne0. induction items0 as [|n items0 IHi]; csimpl; [done|].
    rewrite filter_cons, decide_True by by apply item_sid_set_source.
    by rewrite IHi.
  - replace (filter _ (set_source s0 name0 <$> items0)) with (@nil Item);
      [done|].
    clear -Hne0 Hne. induction items0 as [|n items0 IHi]; csimpl; [done|].
    rewrite filter_cons, decide_False; [done|].
    by rewrite item_sid_set_source.
Qed.

(** The rows of one platform, before the sort, are its items in input
    order. *)
Lemma unsorted_rows_platform news_list sid :
  filter (fun r => item_sid r = sid) (unsorted_rows news_list) =
  platform_rows sid news_list.
Proof.
  destruct (group_platforms_spec news_list) as [Hnd Hget].
  unfold unsorted_rows, platform_rows. rewrite build_rows_filter; [|done|].
  - specialize (Hget sid).
    destruct (platforms_get (group_platforms news_list) sid)
      as [[name items]|].
    + by destruct Hget as (-> & _ & ->).
    + by rewrite Hget.
  - apply Forall_forall. intros [s [name items]] Hin. simpl.
    assert (platforms_get (group_platforms news_list) s <> None) as Hs.
    { rewrite platforms_get_None. intros Hout. apply Hout.
      apply list_elem_of_fmap. by exists (s, (name, items)). }
    specialize (Hget s).
    destruct (platforms_get (group_platforms news_list) s)
      as [[name' items']|]; [|done].
    destruct Hget as (-> & Hne & _).
    destruct (filter _ news_list) as [|n l] eqn:Hf; [done|].
    assert (n ∈ filter (fun n => item_sid n = s) news_list) as Hn
      by (rewrite Hf; left).
    apply list_elem_of_filter in Hn as [<- _]. apply item_sid_nonempty.
Qed.

Lemma platforms_get_elem (P : Platforms) sid g :
  NoDup P.*1 -> (sid, g) ∈ P -> platforms_get P sid = Some g.
Proof.
  induction P as [|[s0 g0] P IH]; csimpl; intros Hnd Hin.
  - by apply elem_of_nil in Hin.
  - apply NoDup_cons in Hnd as [Hs0 Hnd].
    apply elem_of_cons in Hin as [[= -> ->]|Hin].
    + by rewrite decide_True.
    + rewrite decide_False; [by apply IH|].
      intros ->. apply Hs0. apply list_elem_of_fmap. by exists (sid, g).
Qed.

Lemma group_platforms_keys news_list :
  (group_platforms news_list).*1 = platforms_seen news_list.
Proof.
  unfold group_platforms, platforms_seen.
  assert (forall l (P : Platforms),
            (fold_left
               (fun platforms n =>
                  add_to_platform platforms (item_sid n) (display_name n) n)
               l P).*1 =
            fold_left
              (fun seen n =>
                 if decide (item_sid n ∈ seen) then seen
                 else (seen ++ [item_sid n])%list)
              l P.*1) as Hfold.
  { induction l as [|n l IH]; intros P; simpl; [done|].
    rewrite IH, add_to_platform_keys. f_equal.
    destruct (decide (item_sid n ∈ P.*1)) as [Hin|Hout].
    - destruct (platforms_get P (item_sid n)) eqn:Hg; [done|].
      by apply platforms_get_None in Hg.
    - apply platforms_get_None in Hout. by rewrite Hout. }
  apply (Hfold news_list []).
Qed.

(** The rows before the sort: platform after platform in the order of
    first appearance, the rows of each platform in input order. *)
Lemma unsorted_rows_grouped news_list :
  unsorted_rows news_list =
  flat_map (fun sid => platform_rows sid news_list)
    (platforms_seen news_list).
Proof.
  rewrite <- group_platforms_keys.
  destruct (group_platforms_spec news_list) as [Hnd Hget].
  unfold unsorted_rows, build_rows.
  assert (forall sid g, (sid, g) ∈ group_platforms news_list ->
            set_source sid g.1 <$> g.2 = platform_rows sid news_list)
    as Hgroup.
  { intros sid [name items] Hin. simpl.
    specialize (Hget sid).
    rewrite (platforms_get_elem _ _ _ Hnd Hin) in Hget.
    by destruct Hget as (-> & _ & ->). }
  clear Hnd Hget.
  induction (group_platforms news_list) as [|[sid g] P IH]; csimpl; [done|].
  rewrite (Hgroup sid g) by left. f_equal.
  apply IH. intros sid' g' Hin. apply Hgroup. by right.
Qed.

(** *** The sorted rows *)

(** C9, as stated, fails.  Three rows of two platforms outside the
    priority list, all of rank 1, leave in an order that is not their
    input order, because the rows are grouped by platform before the
    sort; and two rows of one unlisted platform leave by rank, not in
    their input order. *)
Lemma unlisted_rows_reordered :
  title <$> SampleRows.interleaved = [Some "x1"; Some "y"; Some "x2"] /\
  title <$> order_raw_rows SampleRows.interleaved ["weibo"; "zhihu"] =
    [Some "x1"; Some "x2"; Some "y"] /\
  title <$> report_rows SampleRows.interleaved =
    [Some "x1"; Some "x2"; Some "y"] /\
  title <$> SampleRows.descending = [Some "a"; Some "b"] /\
  title <$> order_raw_rows SampleRows.descending ["weibo"; "zhihu"] =
    [Some "b"; Some "a"].
Proof. split_and!; vm_compute; reflexivity. Qed.

(** C9 (amended).  The rows are first grouped by platform, platform
    after platform in the order of first appearance, the rows of one
    platform keeping their input order.  They are then sorted by the
    place of the platform in the priority list, every platform outside
    the list getting the length of the list and so coming after all
    listed ones, and within one place by rank, a missing (or zero) rank
    counting as 9999.  Rows with the same platform place and rank leave
    in the order of the grouped rows.  In the scenario with priority
    weibo, zhihu the order is weibo, zhihu, other. *)
Theorem raw_rows_sorted_by_platform_then_rank (news_list : list Item)
    (order : list string) :
  NoDup order ->
  unsorted_rows news_list =
    flat_map (fun sid => platform_rows sid news_list)
      (platforms_seen news_list) /\
  (forall sid,
     filter (fun r => item_sid r = sid) (unsorted_rows news_list) =
     platform_rows sid news_list) /\
  order_raw_rows news_list order ≡ₚ unsorted_rows news_list /\
  (forall r,
     (row_key (platform_index_of order) r).1 = index_of (item_sid r) order /\
     (item_sid r ∈ order -> index_of (item_sid r) order < length order) /\
     (item_sid r ∉ order -> index_of (item_sid r) order = length order) /\
     (rank r = None \/ rank r = Some 0%Z ->
      (row_key (platform_index_of order) r).2 = 9999%Z) /\
     (forall z, rank r = Some z -> z <> 0%Z ->
                (row_key (platform_index_of order) r).2 = z)) /\
  StronglySorted
    (fun a b => row_key_le (row_key (platform_index_of order) a)
                           (row_key (platform_index_of order) b))
    (order_raw_rows news_list order) /\
  (forall k,
     filter (fun r => row_key (platform_index_of order) r = k)
       (order_raw_rows news_list order) =
     filter (fun r => row_key (platform_index_of order) r = k)
       (unsorted_rows news_list)) /\
  source_id <$> order_raw_rows SampleRows.scenario ["weibo"; "zhihu"] =
    [Some "weibo"; Some "zhihu"; Some "other"].
Proof.
  intros Hnd. split_and!.
  - apply unsorted_rows_grouped.
  - apply unsorted_rows_platform.
  - apply sort_by_key_perm.
  - intros r. split_and!.
    + by apply platform_sort_key_index.
    + apply index_of_present.
    + apply index_of_absent.
    + unfold row_key. simpl. by intros [-> | ->].
    + unfold row_key. simpl. intros z -> Hz. simpl.
      by destruct (Z.eqb_spec z 0).
  - eapply StronglySorted_strict_all;
      [|apply (sort_by_key_sorted (row_key (platform_index_of order))
                 row_key_ltb)].
    + intros a b Hab. by apply row_key_ltb_false.
    + apply row_key_ltb_asym.
    + intros a b c. apply row_key_geb_trans.
  - intros k. apply sort_by_key_stable, row_key_ltb_irrefl.
  - vm_compute. reflexivity.
Qed.

Lemma raw_rows_sorted_by_platform_then_rank_witness :
  order_raw_rows SampleRows.interleaved platform_order ≡ₚ
  unsorted_rows SampleRows.interleaved.
Proof.
  apply (raw_rows_sorted_by_platform_then_rank SampleRows.interleaved
           platform_order).
  apply (bool_decide_unpack _). vm_compute. exact I.
Defined.

(** * Further properties of the code *)

(** ** [html_escape] *)

Lemma string_app_cons x (a b : string) : String x a ++ b = String x (a ++ b).
Proof. reflexivity. Qed.

Lemma string_app_nil_l (b : string) : "" ++ b = b.
Proof. reflexivity. Qed.

Lemma string_app_assoc (a b c : string) : (a ++ b) ++ c = a ++ (b ++ c).
Proof.
  induction a as [|x a IH]; [done|].
  by rewrite !string_app_cons, IH.
Qed.

Lemma string_app_nil_r (a : string) : a ++ "" = a.
Proof.
  induction a as [|x a IH]; [done|]. by rewrite string_app_cons, IH.
Qed.

Lemma string_app_length (a b : string) :
  String.length (a ++ b) = String.length a + String.length b.
Proof.
  induction a as [|x a IH]; [done|].
  rewrite string_app_cons. simpl. by rewrite IH.
Qed.

Lemma replace_char_app old new a b :
  replace_char old new (a ++ b) =
  replace_char old new a ++ replace_char old new b.
Proof.
  induction a as [|x a IH]; [done|].
  rewrite string_app_cons. simpl.
  destruct (Ascii.eqb x old); rewrite IH; [|done].
  by rewrite string_app_assoc.
Qed.

Lemma html_escape_cons c rest :
  html_escape (Some (String c rest)) =
  escape_char c ++ html_escape (Some rest).
Proof.
  unfold html_escape. simpl default.
  change (String c rest) with (String c "" ++ rest).
  rewrite !replace_char_app. f_equal.
  unfold escape_char, dquote.
  destruct (Ascii.eqb_spec c "&") as [->|H1]; [reflexivity|].
  destruct (Ascii.eqb_spec c "<") as [->|H2]; [reflexivity|].
  destruct (Ascii.eqb_spec c ">") as [->|H3]; [reflexivity|].
  destruct (Ascii.eqb_spec c "034") as [->|H4]; [reflexivity|].
  destruct (Ascii.eqb_spec c "'") as [->|H5]; [reflexivity|].
  apply Ascii.eqb_neq in H1, H2, H3, H4, H5.
  simpl. rewrite H1. simpl. rewrite H2. simpl. rewrite H3. simpl.
  rewrite H4. simpl. by rewrite H5.
Qed.

Lemma html_escape_each (text : string) :
  html_escape (Some text) = escape_each text.
Proof.
  induction text as [|c rest IH]; [reflexivity|].
  rewrite html_escape_cons, IH. reflexivity.
Qed.

(** X1.  The five replaces, run one after the other, amount to one pass
    that rewrites each character of the input once: nothing that an
    earlier replace wrote is rewritten by a later one.  A missing text is
    escaped to the empty text. *)
Theorem html_escape_one_pass (text : string) :
  html_escape (Some text) = escape_each text /\ html_escape None = "".
Proof.
  split; [apply html_escape_each | reflexivity].
Qed.

Lemma is_html_special_cases c :
  is_html_special c = true ->
  c = "&"%char \/ c = "<"%char \/ c = ">"%char \/ c = dquote \/ c = "'"%char.
Proof.
  unfold is_html_special. rewrite !orb_true_iff, !Ascii.eqb_eq. tauto.
Qed.

Lemma escape_char_plain c :
  is_html_special c = false -> escape_char c = String c "".
Proof.
  unfold is_html_special, escape_char. rewrite !orb_false_iff.
  by intros [[[[-> ->] ->] ->] ->].
Qed.

(** Case analysis on a character: one of the five, or a plain one. *)
Local Ltac by_char c :=
  let H := fresh "Hc" in
  destruct (is_html_special c) eqn:H;
  [ apply is_html_special_cases in H as [-> | [-> | [-> | [-> | ->]]]]
  | rewrite (escape_char_plain c H) in * ].

Lemma escape_char_amp_head c :
  is_html_special c = true -> exists tail, escape_char c = String "&" tail.
Proof.
  intros [-> | [-> | [-> | [-> | ->]]]]%is_html_special_cases;
    eexists; reflexivity.
Qed.

Lemma escape_char_length c :
  1 <= String.length (escape_char c) /\
  (String.length (escape_char c) = 1 <-> is_html_special c = false).
Proof. by_char c; simpl; split; try lia; split; (done || lia). Qed.

Lemma escape_each_app a b : escape_each (a ++ b) = escape_each a ++ escape_each b.
Proof.
  induction a as [|c a IH]; [done|].
  rewrite string_app_cons. simpl. by rewrite IH, string_app_assoc.
Qed.

Lemma escape_each_length text :
  String.length text <= String.length (escape_each text).
Proof.
  induction text as [|c rest IH]; simpl; [done|].
  rewrite string_app_length.
  destruct (escape_char_length c) as [H1 _]. lia.
Qed.

Lemma chars_app (a b : string) :
  chars (a ++ b) =
  (chars a ++ chars b)%list.
Proof.
  induction a as [|x a IH]; [done|].
  rewrite string_app_cons. simpl. by rewrite IH.
Qed.

Lemma escape_char_safe c x :
  x ∈ chars (escape_char c) ->
  x <> "<"%char /\ x <> ">"%char /\ x <> dquote /\ x <> "'"%char.
Proof.
  destruct (is_html_special c) eqn:Hc.
  - apply is_html_special_cases in Hc as [-> | [-> | [-> | [-> | ->]]]];
      simpl; intros Hx;
      repeat (apply elem_of_cons in Hx as [->|Hx]; [by split_and!|]);
      by apply elem_of_nil in Hx.
  - rewrite (escape_char_plain c Hc). simpl.
    intros ->%list_elem_of_singleton.
    unfold is_html_special in Hc. rewrite !orb_false_iff in Hc.
    destruct Hc as [[[[_ H2] H3] H4] H5].
    apply Ascii.eqb_neq in H2, H3, H4, H5. done.
Qed.

(** X2.  Whatever the text, the escaped text holds no [<], no [>], no
    double quote and no single quote. *)
Theorem html_escape_output_safe (text : option string) (x : ascii) :
  x ∈ chars (html_escape text) ->
  x <> "<"%char /\ x <> ">"%char /\ x <> dquote /\ x <> "'"%char.
Proof.
  destruct text as [text|]; [|by intros ?%elem_of_nil].
  rewrite (html_escape_each text).
  induction text as [|c rest IH]; simpl; [by intros ?%elem_of_nil|].
  rewrite chars_app. intros [Hx|Hx]%elem_of_app; [|by apply IH].
  by apply (escape_char_safe c).
Qed.

Lemma html_escape_output_safe_witness :
  "&"%char <> "<"%char.
Proof.
  apply (html_escape_output_safe (Some "a&b") "&"%char).
  vm_compute. right. left.
Defined.

Lemma escape_char_app_inj c d (x y : string) :
  escape_char c ++ x = escape_char d ++ y -> c = d /\ x = y.
Proof.
  destruct (is_html_special c) eqn:Hc, (is_html_special d) eqn:Hd.
  - apply is_html_special_cases in Hc as [-> | [-> | [-> | [-> | ->]]]];
    apply is_html_special_cases in Hd as [-> | [-> | [-> | [-> | ->]]]];
      intros H; cbv in H; first [discriminate H | by injection H as ->].
  - destruct (escape_char_amp_head c Hc) as [tail ->].
    rewrite (escape_char_plain d Hd), !string_app_cons.
    intros [= <- _]. done.
  - destruct (escape_char_amp_head d Hd) as [tail ->].
    rewrite (escape_char_plain c Hc), !string_app_cons.
    intros [= -> _]. done.
  - rewrite (escape_char_plain c Hc), (escape_char_plain d Hd).
    rewrite !string_app_cons. intros [= -> H]. split; [done | exact H].
Qed.

Lemma escape_each_inj a b : escape_each a = escape_each b -> a = b.
Proof.
  revert b. induction a as [|c a IH]; intros [|d b]; simpl.
  - done.
  - intros H. apply (f_equal String.length) in H.
    rewrite string_app_length in H. simpl in H.
    destruct (escape_char_length d) as [? _]. lia.
  - intros H. apply (f_equal String.length) in H.
    rewrite string_app_length in H. simpl in H.
    destruct (escape_char_length c) as [? _]. lia.
  - intros [-> Hab]%escape_char_app_inj. f_equal. by apply IH.
Qed.

(** X3.  Escaping loses nothing: two texts with the same escaped text are
    the same text. *)
Theorem html_escape_injective (a b : string) :
  html_escape (Some a) = html_escape (Some b) -> a = b.
Proof.
  rewrite (html_escape_each a).
  rewrite (html_escape_each b).
  apply escape_each_inj.
Qed.

Lemma html_escape_injective_witness : "a<b" = "a<b".
Proof. apply (html_escape_injective "a<b" "a<b"). reflexivity. Defined.

(** X4.  Escaping a concatenation is concatenating the escaped parts, so
    a page put together from escaped pieces is escaped as a whole. *)
Theorem html_escape_app (a b : string) :
  html_escape (Some (a ++ b)) = html_escape (Some a) ++ html_escape (Some b).
Proof.
  rewrite (html_escape_each a).
  rewrite (html_escape_each b).
  rewrite (html_escape_each (a ++ b)).
  apply escape_each_app.
Qed.

Lemma escape_each_fixed text :
  escape_each text = text <->
  forall x, x ∈ chars text -> is_html_special x = false.
Proof.
  induction text as [|c rest IH]; simpl.
  - split; [by intros _ x ?%elem_of_nil | done].
  - split.
    + intros Heq x Hx.
      destruct (is_html_special c) eqn:Hc.
      * exfalso. apply (f_equal String.length) in Heq.
        rewrite string_app_length in Heq. simpl in Heq.
        pose proof (escape_each_length rest).
        destruct (escape_char_length c) as [H1 H2].
        assert (String.length (escape_char c) <> 1)
          by (rewrite H2; congruence). lia.
      * rewrite (escape_char_plain c Hc), string_app_cons in Heq.
        injection Heq as Heq.
        apply elem_of_cons in Hx as [->|Hx]; [done|]. by apply IH.
    + intros Hall.
      rewrite (escape_char_plain c) by (apply Hall; left).
      rewrite string_app_cons. f_equal. apply IH.
      intros x Hx. apply Hall. by right.
Qed.

Lemma escape_each_special_iff text :
  (forall x, x ∈ chars (escape_each text) ->
             is_html_special x = false) <->
  (forall x, x ∈ chars text -> is_html_special x = false).
Proof.
  induction text as [|c rest IH]; simpl; [done|].
  split.
  - intros Hall x Hx.
    assert (is_html_special c = false) as Hc.
    { destruct (is_html_special c) eqn:Hc; [|done].
      destruct (escape_char_amp_head c Hc) as [tail Ht].
      rewrite Ht, string_app_cons in Hall.
      by specialize (Hall "&"%char (list_elem_of_here _ _)). }
    apply elem_of_cons in Hx as [->|Hx]; [done|].
    apply (proj1 IH); [|done]. intros y Hy. apply Hall.
    rewrite chars_app. apply elem_of_app. by right.
  - intros Hall x.
    rewrite (escape_char_plain c) by (apply Hall; left).
    rewrite string_app_cons. simpl.
    intros [->|Hx]%elem_of_cons; [apply Hall; left|].
    apply (proj2 IH); [|done]. intros y Hy. apply Hall. by right.
Qed.

(** X5.  Escaping never shortens a text.  It leaves a text as it is
    exactly when the text holds none of the five characters, and only
    then is escaping twice the same as escaping once: an escaped text
    that is escaped again is escaped twice. *)
Theorem html_escape_fixed_points (text : string) :
  String.length text <= String.length (html_escape (Some text)) /\
  (html_escape (Some text) = text <->
   forall x, x ∈ chars text -> is_html_special x = false) /\
  (html_escape (Some (html_escape (Some text))) = html_escape (Some text) <->
   forall x, x ∈ chars text -> is_html_special x = false).
Proof.
  rewrite (html_escape_each text).
  rewrite (html_escape_each (escape_each text)).
  split_and!.
  - apply escape_each_length.
  - apply escape_each_fixed.
  - rewrite escape_each_fixed. apply escape_each_special_iff.
Qed.

(** ** [apply_env_aliases] *)

Lemma alias_step_lookup target fallback (env : Env) k :
  alias_step target fallback env !! k =
  if decide (k = target)
  then match env !! target with
       | Some v => Some v
       | None => fallback env
       end
  else env !! k.
Proof.
  unfold alias_step. destruct (decide (k = target)) as [->|Hne].
  - destruct (env !! target) as [v|] eqn:Ht; [done|].
    destruct (fallback env) as [v|]; [by rewrite lookup_insert_eq | done].
  - destruct (env !! target) as [v|]; [done|].
    destruct (fallback env) as [v|]; [by rewrite lookup_insert_ne | done].
Qed.

Lemma step_for_None k steps : k ∉ steps.*1 -> step_for k steps = None.
Proof.
  induction steps as [|[t f] steps IH]; csimpl; [done|].
  intros [Hne Hout]%not_elem_of_cons.
  rewrite decide_False by done. by apply IH.
Qed.

(** Steps with distinct targets whose fallbacks read variables that no
    step writes: each variable ends with its old value, or with the
    fallback of its step computed in the starting environment. *)
Lemma alias_steps_lookup srcs steps (env : Env) k :
  NoDup steps.*1 ->
  Forall (fun st => (st.1 ∉ srcs) /\ reads_only srcs st.2) steps ->
  fold_left (fun env step => alias_step step.1 step.2 env) steps env !! k =
  match env !! k with
  | Some v => Some v
  | None =>
      match step_for k steps with
      | Some f => f env
      | None => None
      end
  end.
Proof.
  revert env. induction steps as [|[t f] steps IH]; intros env; csimpl.
  - intros _ _. by destruct (env !! k).
  - intros [Ht Hnd]%NoDup_cons [[Hsrc Hf] Hall]%Forall_cons.
    simpl in Hsrc, Hf. rewrite (IH _ Hnd Hall), alias_step_lookup.
    assert (forall g, reads_only srcs g ->
              g (alias_step t f env) = g env) as Hsame.
    { intros g Hg. apply Hg. intros s Hs. rewrite alias_step_lookup.
      rewrite decide_False; [done|]. by intros ->. }
    destruct (decide (t = k)) as [->|Hne].
    + rewrite decide_True by done. rewrite (step_for_None k steps Ht).
      destruct (env !! k); [done|]. by destruct (f env).
    + rewrite decide_False by done.
      destruct (env !! k); [done|].
      assert (forall g, step_for k steps = Some g -> reads_only srcs g)
        as Hfound.
      { clear -Hall. induction Hall as [|[t' f'] steps [_ Hf'] _ IHs];
          simpl; [done|].
        intros g. destruct (decide (t' = k)); [by intros [= <-] | apply IHs]. }
      destruct (step_for k steps) as [g|] eqn:Hg; [|done].
      by apply Hsame, Hfound.
Qed.

Lemma env_truthy_reads_only srcs s :
  s ∈ srcs -> reads_only srcs (fun env => env_truthy env s).
Proof.
  intros Hs e1 e2 Heq. unfold env_truthy. by rewrite (Heq s Hs).
Qed.

Lemma kimi_model_reads_only : reads_only kimi_sources kimi_model.
Proof.
  intros e1 e2 Heq. unfold kimi_model, env_truthy.
  rewrite (Heq "KIMI_MODEL_NAME"), (Heq "KIMI_MODEL"); [done|..];
    apply (bool_decide_unpack _); vm_compute; exact I.
Qed.

Lemma alias_steps_local :
  NoDup alias_steps.*1 /\
  Forall (fun st => (st.1 ∉ kimi_sources) /\ reads_only kimi_sources st.2)
    alias_steps.
Proof.
  split; [apply (bool_decide_unpack _); vm_compute; exact I|].
  unfold alias_steps, api_key_targets, base_url_targets, model_name_targets.
  csimpl.
  repeat (apply Forall_cons; split;
          [split;
           [apply (bool_decide_unpack _); vm_compute; exact I
           | first [apply kimi_model_reads_only
                   | apply env_truthy_reads_only;
                     apply (bool_decide_unpack _); vm_compute; exact I]]|]).
  apply Forall_nil_2.
Qed.

Lemma alias_steps_fallback (env : Env) k :
  match step_for k alias_steps with
  | Some f => f env
  | None => None
  end = alias_fallback env k.
Proof.
  unfold alias_fallback, alias_steps, api_key_targets, base_url_targets,
    model_name_targets.
  csimpl.
  repeat (match goal with
          | |- context [decide (?t = k)] =>
              destruct (decide (t = k)) as [<-|?]; [reflexivity|]
          end).
  rewrite !bool_decide_false; [done|..];
    intros Hin;
    repeat (apply elem_of_cons in Hin as [->|Hin]; [done|]);
    by apply elem_of_nil in Hin.
Qed.

Lemma alias_steps_get (env : Env) (k : string) :
  fold_left (fun env step => alias_step step.1 step.2 env) alias_steps env
    !! k =
  match env !! k with
  | Some v => Some v
  | None => alias_fallback env k
  end.
Proof.
  destruct alias_steps_local as [Hnd Hall].
  rewrite (alias_steps_lookup kimi_sources alias_steps env k Hnd Hall).
  by rewrite alias_steps_fallback.
Qed.

(** X6.  After [apply_env_aliases] every variable that was set has the
    value it had, and a variable that was not set has its fallback: the
    non-empty [KIMI_API_KEY] for the four API keys, the non-empty
    [KIMI_BASE_URL] for the four base URLs, the non-empty
    [KIMI_MODEL_NAME] or else the non-empty [KIMI_MODEL] for the three
    model names, and nothing for any other variable. *)
Theorem apply_env_aliases_lookup (env : Env) (k : string) :
  apply_env_aliases env !! k =
  match env !! k with
  | Some v => Some v
  | None => alias_fallback env k
  end.
Proof.
  unfold apply_env_aliases. apply alias_steps_get.
Qed.

Lemma alias_fallback_sources (env1 env2 : Env) k :
  (forall s, s ∈ kimi_sources -> env1 !! s = env2 !! s) ->
  alias_fallback env1 k = alias_fallback env2 k.
Proof.
  intros Heq. unfold alias_fallback.
  repeat case_bool_decide; try done.
  - by apply (env_truthy_reads_only kimi_sources "KIMI_API_KEY");
      [apply (bool_decide_unpack _); vm_compute; exact I|].
  - by apply (env_truthy_reads_only kimi_sources "KIMI_BASE_URL");
      [apply (bool_decide_unpack _); vm_compute; exact I|].
  - by apply kimi_model_reads_only.
Qed.

Lemma alias_fallback_source_None (env : Env) s :
  s ∈ kimi_sources -> alias_fallback env s = None.
Proof.
  intros Hs. unfold alias_fallback, kimi_sources in *.
  repeat (apply elem_of_cons in Hs as [->|Hs]; [reflexivity|]).
  by apply elem_of_nil in Hs.
Qed.

(** X7.  [apply_env_aliases] is idempotent, and it only adds variables:
    applying it again changes nothing, and the environment it is given
    is contained in the one it leaves. *)
Theorem apply_env_aliases_idempotent (env : Env) :
  apply_env_aliases (apply_env_aliases env) = apply_env_aliases env /\
  env ⊆ apply_env_aliases env.
Proof.
  unfold apply_env_aliases. split.
  - apply map_eq. intros k. rewrite (alias_steps_get _ k).
    destruct (fold_left _ alias_steps env !! k) as [v|] eqn:Hk; [done|].
    rewrite alias_steps_get in Hk.
    destruct (env !! k) eqn:Hek; [done|]. rewrite <- Hk.
    apply alias_fallback_sources. intros s Hs.
    rewrite alias_steps_get.
    destruct (env !! s); [done|]. by apply alias_fallback_source_None.
  - apply map_subseteq_spec. intros k v Hk.
    by rewrite alias_steps_get, Hk.
Qed.

(** ** The environment at import time *)

Lemma load_lines_lookup lines (env : Env) k :
  load_lines env lines !! k =
  match env !! k with
  | Some v => Some v
  | None => if String.eqb k "" then None else dict_get lines k
  end.
Proof.
  unfold load_lines.
  revert env. induction lines as [|[k0 v0] lines IH]; intros env; simpl.
  - destruct (env !! k); [done|]. by destruct (String.eqb k "").
  - rewrite IH. unfold set_default. simpl.
    destruct (String.eqb k0 "") eqn:Hk0.
    + apply String.eqb_eq in Hk0.
      destruct (env !! k); [done|].
      destruct (String.eqb k "") eqn:Hk; [done|].
      apply String.eqb_neq in Hk.
      rewrite decide_False; [done | congruence].
    + destruct (env !! k0) as [old|] eqn:Hold.
      * destruct (env !! k) eqn:Hek; [done|].
        destruct (String.eqb k ""); [done|].
        rewrite decide_False; [done | congruence].
      * destruct (decide (k0 = k)) as [Heq|Hne].
        -- rewrite <- Heq, lookup_insert_eq, Hold. by rewrite Hk0.
        -- by rewrite lookup_insert_ne.
Qed.

Lemma dict_get_app {V} (a b : list (string * V)) k :
  dict_get (a ++ b)%list k =
  match dict_get a k with
  | Some v => Some v
  | None => dict_get b k
  end.
Proof.
  induction a as [|[k0 v0] a IH]; simpl; [done|].
  by destruct (decide (k0 = k)).
Qed.

Lemma load_with_lookup read encs (env : Env) k :
  load_with read encs env !! k =
  match env !! k with
  | Some v => Some v
  | None =>
      if String.eqb k "" then None else dict_get (lines_read read encs) k
  end.
Proof.
  revert env. induction encs as [|e encs IH]; intros env; simpl.
  - destruct (env !! k); [done|]. by destruct (String.eqb k "").
  - destruct (complete (read e)).
    + by rewrite load_lines_lookup, app_nil_r.
    + rewrite IH, load_lines_lookup, dict_get_app.
      destruct (env !! k); [done|].
      destruct (String.eqb k ""); [done|].
      by destruct (dict_get (assignments (read e)) k).
Qed.

(** X8.  [load_env_file] never changes a variable that is set, be it to
    the empty string, and never sets the empty name; a variable that is
    not set gets the value of the first assignment to it among the lines
    that were gone through, those of the attempts that raised included.
    Without a file the environment stays as it is. *)
Theorem load_env_file_lookup (file : option (string -> Reading))
    (env : Env) (k : string) :
  load_env_file file env !! k =
  match env !! k with
  | Some v => Some v
  | None => file_value file k
  end.
Proof.
  destruct file as [read|].
  - apply load_with_lookup.
  - simpl. by destruct (env !! k).
Qed.

(** X9.  The precedence at import time: a variable has the value of the
    process environment when it is set there, be it empty; else the
    value that the file gives it; else its fallback among the [KIMI_*]
    variables, read in the environment that the file has completed. *)
Theorem startup_env_precedence (file : option (string -> Reading))
    (env : Env) (k : string) :
  startup_env file env !! k =
  match env !! k with
  | Some v => Some v
  | None =>
      match file_value file k with
      | Some v => Some v
      | None => alias_fallback (load_env_file file env) k
      end
  end.
Proof.
  assert (load_env_file file env !! k =
          match env !! k with
          | Some v => Some v
          | None => file_value file k
          end) as Hfile.
  { destruct file as [read|].
    - apply load_with_lookup.
    - simpl. by destruct (env !! k). }
  unfold startup_env, apply_env_aliases.
  rewrite alias_steps_get, Hfile.
  destruct (env !! k); [done|]. by destruct (file_value file k).
Qed.

(** ** Sources and scrapers *)

Lemma dict_get_set_eq {V} (d : list (string * V)) k v :
  dict_get (dict_set d k v) k = Some v.
Proof.
  induction d as [|[k0 v0] d IH]; simpl.
  - by rewrite decide_True.
  - destruct (decide (k0 = k)) as [->|Hne]; simpl.
    + by rewrite decide_True.
    + by rewrite decide_False.
Qed.

Lemma dict_get_set_ne {V} (d : list (string * V)) k k' v :
  k <> k' -> dict_get (dict_set d k v) k' = dict_get d k'.
Proof.
  intros Hne. induction d as [|[k0 v0] d IH]; simpl.
  - by rewrite decide_False.
  - destruct (decide (k0 = k)) as [->|Hne0]; simpl.
    + by rewrite !decide_False.
    + by rewrite IH.
Qed.

Lemma dict_get_None {V} (d : list (string * V)) k :
  dict_get d k = None <-> k ∉ d.*1.
Proof.
  induction d as [|[k0 v0] d IH]; csimpl.
  - split; [intros _; apply not_elem_of_nil | done].
  - rewrite not_elem_of_cons. destruct (decide (k0 = k)) as [->|Hne].
    + split; [done | intros [? _]; done].
    + rewrite IH. split; [intros ?; split; [congruence | done] | intros [_ ?]; done].
Qed.

Lemma dict_set_keys {V} (d : list (string * V)) k v :
  (dict_set d k v).*1 =
  match dict_get d k with
  | Some _ => d.*1
  | None => (d.*1 ++ [k])%list
  end.
Proof.
  induction d as [|[k0 v0] d IH]; csimpl; [done|].
  destruct (decide (k0 = k)) as [->|Hne]; csimpl; [done|].
  rewrite IH. by destruct (dict_get d k).
Qed.

Lemma dict_set_NoDup {V} (d : list (string * V)) k v :
  NoDup d.*1 -> NoDup (dict_set d k v).*1.
Proof.
  intros Hnd. rewrite dict_set_keys.
  destruct (dict_get d k) eqn:Hg; [done|].
  apply NoDup_app. split_and!; [done | | apply NoDup_singleton].
  intros x Hx ->%list_elem_of_singleton. by apply dict_get_None in Hg.
Qed.

Lemma sources_from_spec ps (d0 : list (string * string)) :
  NoDup d0.*1 ->
  match sources_from ps d0 with
  | Some d =>
      NoDup d.*1 /\
      (forall p, p ∈ ps -> is_Some (cfg_id p)) /\
      forall k,
        dict_get d k =
        fold_left (fun acc p =>
                     if decide (cfg_id p = Some k)
                     then Some (default k (cfg_name p)) else acc)
                  ps (dict_get d0 k)
  | None => exists p, p ∈ ps /\ cfg_id p = None
  end.
Proof.
  revert d0. induction ps as [|p ps IH]; intros d0 Hnd; simpl.
  - split_and!; [done | by intros p ?%elem_of_nil | done].
  - destruct (cfg_id p) as [i|] eqn:Hi; [|exists p; split; [left | done]].
    specialize (IH (dict_set d0 i (default i (cfg_name p)))
                  (dict_set_NoDup _ _ _ Hnd)).
    destruct (sources_from ps _) as [d|].
    + destruct IH as (Hnd' & Hids & Hget). split_and!; [done | |].
      * intros q [->|Hq]%elem_of_cons; [by rewrite Hi | by apply Hids].
      * intros k. rewrite Hget. f_equal.
        destruct (decide (Some i = Some k)) as [[= ->]|Hne].
        -- by rewrite dict_get_set_eq.
        -- rewrite dict_get_set_ne; [done | congruence].
    + destruct IH as (q & Hq & Hnone). exists q. split; [by right | done].
Qed.

(** X10.  The sources that the constructor takes from a [platforms] list:
    the construction fails exactly when an entry has no id; otherwise
    each id of the list is a source once, named by the last entry with
    that id (by the id itself when that entry gives no name), and
    nothing else is a source, the seven built-in sources included. *)
Theorem sources_from_config (ps : list PlatformCfg) :
  match SpiderNode_sources (Some {| platforms := Val ps |}) with
  | Some sources =>
      NoDup sources.*1 /\
      (forall p, p ∈ ps -> is_Some (cfg_id p)) /\
      (forall k, dict_get sources k = configured_name k ps) /\
      (forall k, k ∈ sources.*1 <-> exists p, p ∈ ps /\ cfg_id p = Some k)
  | None => exists p, p ∈ ps /\ cfg_id p = None
  end.
Proof.
  simpl. pose proof (sources_from_spec ps [] NoDup_nil_2) as Hspec.
  destruct (sources_from ps []) as [d|]; [|done].
  destruct Hspec as (Hnd & Hids & Hget). split_and!; [done..|].
  intros k.
  assert (k ∈ d.*1 <-> dict_get d k <> None) as ->.
  { pose proof (dict_get_None d k) as Hn.
    destruct (decide (k ∈ d.*1)) as [Hin|Hout].
    - split; [|done]. intros _ Hg. by apply Hn in Hg.
    - split; [done|]. intros Hg. destruct Hg. by apply Hn. }
  rewrite Hget. simpl. clear.
  assert (forall acc,
            fold_left (fun acc p =>
                         if decide (cfg_id p = Some k)
                         then Some (default k (cfg_name p)) else acc)
                      ps acc <> None <->
            acc <> None \/ exists p, p ∈ ps /\ cfg_id p = Some k) as Hfold.
  { induction ps as [|p ps IH]; intros acc; simpl.
    - split; [by left | intros [?|(p & ?%elem_of_nil & _)]; done].
    - rewrite IH. destruct (decide (cfg_id p = Some k)) as [Hp|Hp].
      + split; [intros _; right; exists p; split; [left | done]|].
        intros _. by left.
      + split.
        * intros [?|(q & Hq & Hk)]; [by left|].
          right. exists q. split; [by right | done].
        * intros [?|(q & [->|Hq]%elem_of_cons & Hk)]; [by left | done |].
          right. eauto. }
  rewrite Hfold. split; [intros [?|?]; done | by right].
Qed.

(** X11.  When no configuration file is found, [load_config] returns a
    dict whose [platforms] list is empty, and the constructor replaces
    the seven built-in sources by that empty list: the node has no
    source, and its call returns an empty news list whatever the
    platforms would answer and whatever the storage holds.  The built-in
    sources are used only when the loaded document is empty or has no
    [platforms] key. *)
Theorem missing_config_scrapes_nothing (fetch_data : string -> Response)
    (st : Storage) (t_save t_now : Z) :
  SpiderNode_sources (load_config Missing) = Some [] /\
  (exists st' out,
     SpiderNode_run Missing fetch_data st t_save t_now =
     Some (st', out, Ok [])) /\
  SpiderNode_sources (load_config (Loaded None)) = Some builtin_sources /\
  (forall c, platforms c = Absent ->
     SpiderNode_sources (load_config (Loaded (Some c))) =
     Some builtin_sources).
Proof.
  split_and!.
  - reflexivity.
  - unfold SpiderNode_run. simpl.
    pose proof (SpiderNode_call_merged st t_save t_now []) as Hm.
    destruct (SpiderNode_call st t_save t_now []) as [[st' out] r].
    simpl in Hm. subst r. by exists st', out.
  - reflexivity.
  - intros c Hc. simpl. by rewrite Hc.
Qed.

Lemma append_entries_leading sid sname items idx :
  length (append_entries sid sname idx items) =
  length (leading_entries items) /\
  title <$> append_entries sid sname idx items =
  (fun e => get (raw_title e)) <$> leading_entries items /\
  hot_value <$> append_entries sid sname idx items =
  (fun e => get_default (raw_hotValue e) 0%Z) <$> leading_entries items.
Proof.
  revert idx. induction items as [|[e|] items IH]; intros idx; csimpl;
    [done| |done].
  destruct (IH (idx + 1)%Z) as (-> & -> & ->). done.
Qed.

Lemma leading_entries_cut items j :
  items !! j = Some None -> length (leading_entries items) <= j.
Proof.
  revert j. induction items as [|[e|] items IH]; intros [|j]; simpl;
    try done; try lia.
  intros Hj. specialize (IH j Hj). lia.
Qed.

Lemma leading_entries_all items :
  Forall is_Some items -> length (leading_entries items) = length items.
Proof.
  induction 1 as [|x items [e ->] _ IH]; simpl; [done | by rewrite IH].
Qed.

(** X12.  From one platform the scraper keeps exactly the entries that
    come before the first malformed one among the first 30: an entry
    that is not a JSON object discards itself and every entry after it,
    and when the first 30 entries are all objects none of them is
    dropped. *)
Theorem scrape_keeps_leading_entries (sid sname : string)
    (items : list (option RawEntry)) :
  length (scrape_platform sid sname (Items items)) =
    length (leading_entries (take 30 items)) /\
  title <$> scrape_platform sid sname (Items items) =
    (fun e => get (raw_title e)) <$> leading_entries (take 30 items) /\
  (forall j, j < 30 -> items !! j = Some None ->
     length (scrape_platform sid sname (Items items)) <= j) /\
  (Forall is_Some (take 30 items) ->
   length (scrape_platform sid sname (Items items)) =
   30 `min` length items).
Proof.
  unfold scrape_platform.
  destruct (append_entries_leading sid sname (take 30 items) 1)
    as (Hlen & Htitle & _).
  split_and!; [done | done | |].
  - intros j Hj Hitem. rewrite Hlen. apply leading_entries_cut.
    by rewrite lookup_take_lt.
  - intros Hall. by rewrite Hlen, leading_entries_all, length_take.
Qed.

Lemma collect_entries_leading sname items :
  length (collect_entries sname items) = length (leading_entries items) /\
  title <$> collect_entries sname items =
  (fun e => get (raw_title e)) <$> leading_entries items /\
  hot_value <$> collect_entries sname items =
  (fun e => get_default (raw_hotValue e) 0%Z) <$> leading_entries items /\
  Forall (fun it => rank it = None /\ source_id it = None /\
                    source it = Some sname)
    (collect_entries sname items).
Proof.
  induction items as [|[e|] items IH]; csimpl; [done| |done].
  destruct IH as (-> & -> & -> & Hall).
  split_and!; [done..|]. by apply Forall_cons.
Qed.

Lemma leading_entries_take n items :
  leading_entries (take n items) = take n (leading_entries items).
Proof.
  revert n. induction items as [|[e|] items IH]; intros [|n]; simpl;
    try done.
  by rewrite IH.
Qed.

(** X13.  The scraper of the second version keeps, for each platform,
    the first ten of what the scraper of the graph version keeps: the
    same titles and hot values in the same order.  Its items carry no
    rank and no source id. *)
Theorem collect_platform_is_prefix (sid sname : string) (r : Response) :
  title <$> collect_platform sname r =
    take 10 (title <$> scrape_platform sid sname r) /\
  hot_value <$> collect_platform sname r =
    take 10 (hot_value <$> scrape_platform sid sname r) /\
  length (collect_platform sname r) <= 10 /\
  Forall (fun it => rank it = None /\ source_id it = None /\
                    source it = Some sname)
    (collect_platform sname r).
Proof.
  destruct r as [| |items]; simpl;
    [split_and!; [done | done | lia | apply Forall_nil_2]..|].
  destruct (collect_entries_leading sname (take 10 items))
    as (Hlen & -> & -> & Hall).
  destruct (append_entries_leading sid sname (take 30 items) 1)
    as (_ & -> & ->).
  rewrite <- !fmap_take, <- !leading_entries_take, take_take.
  replace (10 `min` 30) with 10 by done.
  split_and!; [done | done | | done].
  rewrite Hlen, leading_entries_take, length_take. lia.
Qed.

(** ** Aggregator: growth of the aggregated dict *)

Lemma fold_item_keys (a : Agg) it :
  exists new, (fold_item a it).*1 = (a.*1 ++ new)%list.
Proof.
  unfold fold_item. destruct (String.eqb _ _);
    [exists []; by rewrite app_nil_r|].
  destruct (agg_get a (item_key it)) eqn:Hg; rewrite agg_set_keys, Hg;
    [exists []; by rewrite app_nil_r | by eexists].
Qed.

Lemma fold_items_keys items (a : Agg) :
  exists new, (fold_items a items).*1 = (a.*1 ++ new)%list.
Proof.
  unfold fold_items. revert a.
  induction items as [|it items IH]; intros a; simpl.
  - exists []. by rewrite app_nil_r.
  - destruct (IH (fold_item a it)) as [new2 ->].
    destruct (fold_item_keys a it) as [new1 ->].
    exists (new1 ++ new2)%list. by rewrite app_assoc.
Qed.

Lemma rank_no_worse_min o x l : is_min_of o (x :: l) -> rank_no_worse o x.
Proof.
  intros Hmin y ->. destruct o as [m|]; simpl in Hmin.
  - destruct Hmin as [_ Hle]. exists m. split; [done|]. apply Hle. left.
  - by specialize (Hmin (Some y) (list_elem_of_here _ _)).
Qed.

Lemma hot_no_less_max o x l : is_max_of o (x :: l) -> hot_no_less o x.
Proof.
  intros Hmax y ->. destruct o as [m|]; simpl in Hmax.
  - destruct Hmax as [_ Hle]. exists m. split; [done|]. apply Hle. left.
  - by specialize (Hmax (Some y) (list_elem_of_here _ _)).
Qed.

(** X14.  Folding one more snapshot only adds and improves: the keys
    already stored keep their places and new keys come after them; a
    stored record keeps its written-once fields, its rank does not get
    worse and its hot value does not get smaller. *)
Theorem fold_one_more_snapshot (window : list (list Item))
    (snapshot : list Item) :
  (exists new,
     (fold_window [] (window ++ [snapshot])).*1 =
     ((fold_window [] window).*1 ++ new)%list) /\
  forall key stored,
    (key, stored) ∈ fold_window [] window ->
    exists stored',
      (key, stored') ∈ fold_window [] (window ++ [snapshot]) /\
      same_fixed_fields stored' stored /\
      rank_no_worse (rank stored') (rank stored) /\
      hot_no_less (hot_value stored') (hot_value stored).
Proof.
  rewrite fold_window_snoc. split; [apply fold_items_keys|].
  intros key stored Hin.
  pose proof (fold_window_NoDup window) as Hnd.
  pose proof (fold_items_NoDup snapshot _ Hnd) as Hnd'.
  apply (agg_get_Some _ _ _ Hnd) in Hin.
  exists (fold_left reconcile (observed key snapshot) stored).
  split_and!.
  - apply (agg_get_Some _ _ _ Hnd'). rewrite fold_items_get, Hin.
    destruct (decide (key.2 = "")) as [He|He].
    + exfalso. rewrite fold_window_get, decide_True in Hin by done. done.
    + by rewrite fold_record_Some.
  - apply fold_reconcile_fixed.
  - eapply rank_no_worse_min.
    apply (fold_reconcile_rank _ stored [rank stored]), is_min_of_singleton.
  - eapply hot_no_less_max.
    apply (fold_reconcile_hot_value _ stored [hot_value stored]),
      is_max_of_singleton.
Qed.

Lemma fold_item_keys_seen (a : Agg) it :
  NoDup a.*1 ->
  (fold_item a it).*1 =
  if String.eqb (item_key it).2 "" then a.*1
  else if decide (item_key it ∈ a.*1) then a.*1
  else (a.*1 ++ [item_key it])%list.
Proof.
  intros Hnd. unfold fold_item. destruct (String.eqb _ _); [done|].
  destruct (decide (item_key it ∈ a.*1)) as [Hin|Hout].
  - destruct (agg_get a (item_key it)) eqn:Hg.
    + by rewrite agg_set_keys, Hg.
    + by apply agg_get_None in Hg.
  - apply agg_get_None in Hout.
    by rewrite Hout, agg_set_keys, Hout.
Qed.

Lemma fold_items_keys_seen items (a : Agg) :
  NoDup a.*1 ->
  (fold_items a items).*1 =
  fold_left (fun seen it =>
               if String.eqb (item_key it).2 "" then seen
               else if decide (item_key it ∈ seen) then seen
               else (seen ++ [item_key it])%list)
            items a.*1.
Proof.
  unfold fold_items. revert a.
  induction items as [|it items IH]; intros a Hnd; simpl; [done|].
  rewrite IH by by apply fold_item_NoDup.
  by rewrite fold_item_keys_seen.
Qed.

(** X15.  The stored records stand in the order in which their keys
    first appear in the folded items, and each record has the source,
    the display name, the title and the links of the first folded item
    with its key: later items of the key change the rank and the hot
    value only. *)
Theorem fold_window_first_write_wins (window : list (list Item)) :
  (fold_window [] window).*1 = keys_seen (concat window) /\
  forall key stored,
    (key, stored) ∈ fold_window [] window ->
    exists first rest,
      observed key (concat window) = first :: rest /\
      same_fixed_fields stored first.
Proof.
  split.
  - rewrite fold_window_concat. by apply fold_items_keys_seen, NoDup_nil_2.
  - intros key stored (_ & (first & Hhd & Hfix) & _)%fold_window_record.
    destruct (observed key (concat window)) as [|x rest]; [done|].
    injection Hhd as ->. eauto.
Qed.

(** ** The call of the spider node as a whole *)

Lemma scan_aware_parsable cutoff off (a : Agg) ps :
  tzinfo cutoff = Some off ->
  (exists p, p ∈ ps /\ is_Some (stamp p)) ->
  scan cutoff a ps = Raise TypeError.
Proof.
  intros Haware. induction ps as [|p ps IH]; simpl.
  - by intros (p & ?%elem_of_nil & _).
  - intros (q & Hq & Hs). unfold scan_file.
    destruct (stamp p) as [s|] eqn:Hp; simpl.
    + by rewrite (dt_lt_naive_aware _ _ _ Haware).
    + apply IH. exists q. split; [|done].
      apply elem_of_cons in Hq as [->|Hq]; [|done].
      rewrite Hp in Hs. by destruct Hs.
Qed.

Lemma write_file_stamp fs s c :
  exists p, p ∈ write_file fs s c /\ stamp p = Some s /\ content p = c.
Proof.
  induction fs as [|f fs IH]; simpl.
  - eexists. split; [left | done].
  - destruct (decide (stamp f = Some s)).
    + eexists. split; [left | done].
    + destruct IH as (p & Hp & Hs). exists p. split; [by right | done].
Qed.

(** X16.  Whatever the storage holds and whatever the clock shows, the
    call returns the current scrape as it is.  As soon as the directory
    holds a file whose name gives a timestamp, the merge is reported as
    failed with a [TypeError]; so it is in every call whose own snapshot
    was saved. *)
Theorem SpiderNode_call_returns_current_items (st : Storage)
    (t_save t_now : Z) (news_list : list Item) :
  (SpiderNode_call st t_save t_now news_list).2 = Ok news_list /\
  ((exists p, p ∈ files (SpiderNode_call st t_save t_now news_list).1.1 /\
              is_Some (stamp p)) ->
   MergeFailed TypeError ∈
     (SpiderNode_call st t_save t_now news_list).1.2) /\
  ((save_snapshot st (get_beijing_time t_save) news_list).2 = Ok () ->
   (SpiderNode_call st t_save t_now news_list).1.2 =
   [MergeFailed TypeError]).
Proof.
  split; [apply SpiderNode_call_merged|].
  unfold SpiderNode_call.
  destruct (save_snapshot st (get_beijing_time t_save) news_list)
    as [st1 saved] eqn:Hsave. simpl.
  assert ((exists p, p ∈ files st1 /\ is_Some (stamp p)) ->
          merge_report
            (sub_hours (get_beijing_time t_now) lookback_hours)
            (files st1) news_list = MergeFailed TypeError) as Hreport.
  { intros Hp. unfold merge_report.
    by rewrite (scan_aware_parsable _ (8 * 3600)%Z [] (files st1)). }
  split.
  - intros Hp. rewrite (Hreport Hp). apply elem_of_app. right. left.
  - intros ->. rewrite Hreport; [done|].
    unfold save_snapshot in Hsave.
    destruct (mkdir_ok st), (open_ok st), (dump_ok st); simpl in Hsave;
      try done.
    injection Hsave as <-. simpl.
    destruct (write_file_stamp (files st)
                (wall (get_beijing_time t_save)) (Some news_list))
      as (p & Hp & Hs & _).
    exists p. split; [done | by rewrite Hs].
Qed.

Lemma SpiderNode_call_returns_current_items_witness :
  (SpiderNode_call Sample.fresh 1000 1001 [Sample.y_item]).1.2 =
  [MergeFailed TypeError].
Proof.
  apply (SpiderNode_call_returns_current_items Sample.fresh 1000 1001
           [Sample.y_item]).
  reflexivity.
Defined.

(** ** Nothing is lost between the lists and the page *)

Lemma flat_map_filter_perm {B} (key : B -> string) (l : list B)
    (keys : list string) :
  NoDup keys ->
  (forall x, x ∈ l -> key x ∈ keys) ->
  flat_map (fun k => filter (fun x => key x = k) l) keys ≡ₚ l.
Proof.
  intros Hnd. induction l as [|x l IH]; intros Hcover.
  - clear. induction keys as [|k keys IHk]; simpl; done.
  - assert (key x ∈ keys) as Hx by (apply Hcover; left).
    trans (x :: flat_map (fun k => filter (fun y => key y = k) l) keys).
    2: { apply Permutation_cons; [done|]. apply IH.
         intros y Hy. apply Hcover. by right. }
    clear IH Hcover. induction keys as [|k keys IHk]; simpl.
    + by apply elem_of_nil in Hx.
    + apply NoDup_cons in Hnd as [Hk Hnd]. rewrite filter_cons.
      destruct (decide (key x = k)) as [Hxk|Hxk].
      * simpl. apply Permutation_cons; [done|].
        apply Permutation_app_head.
        assert (key x ∉ keys) as Hout by by rewrite Hxk.
        clear -Hout. induction keys as [|k' keys IH]; simpl; [done|].
        apply not_elem_of_cons in Hout as [Hne Hout].
        rewrite filter_cons, decide_False by done.
        by rewrite IH.
      * apply elem_of_cons in Hx as [?|Hx]; [done|].
        rewrite (IHk Hnd Hx). symmetry. apply Permutation_middle.
Qed.

Lemma platforms_seen_cover news_list :
  NoDup (platforms_seen news_list) /\
  forall n, n ∈ news_list -> item_sid n ∈ platforms_seen news_list.
Proof.
  rewrite <- group_platforms_keys.
  destruct (group_platforms_spec news_list) as [Hnd Hget].
  split; [done|]. intros n Hn.
  destruct (decide (item_sid n ∈ (group_platforms news_list).*1))
    as [|Hout]; [done|]. exfalso.
  apply platforms_get_None in Hout. specialize (Hget (item_sid n)).
  rewrite Hout in Hget.
  assert (n ∈ filter (fun m => item_sid m = item_sid n) news_list) as Hf
    by (apply list_elem_of_filter; done).
  rewrite Hget in Hf. by apply elem_of_nil in Hf.
Qed.

Lemma flat_map_fmap {B C D} (f : C -> D) (g : B -> list C) (l : list B) :
  flat_map (fun k => f <$> g k) l = f <$> flat_map g l.
Proof.
  induction l as [|k l IH]; csimpl; [done|]. by rewrite IH, fmap_app.
Qed.

Lemma order_raw_rows_perm (news_list : list Item) (order : list string) :
  order_raw_rows news_list order ≡ₚ
    (fun n => set_source (item_sid n)
                (group_name (item_sid n) news_list) n) <$> news_list.
Proof.
  unfold order_raw_rows. rewrite sort_by_key_perm, unsorted_rows_grouped.
  destruct (platforms_seen_cover news_list) as [Hnd Hcover].
  rewrite (flat_map_ext _
             (fun sid =>
                (fun n => set_source (item_sid n)
                            (group_name (item_sid n) news_list) n)
                  <$> filter (fun n => item_sid n = sid) news_list)).
  - rewrite flat_map_fmap. apply fmap_Permutation.
    by apply flat_map_filter_perm.
  - intros sid. unfold platform_rows.
    apply list_fmap_ext. intros i n Hn.
    apply list_elem_of_lookup_2, list_elem_of_filter in Hn as [<- _].
    done.
Qed.

(** X17.  The raw table has one row for every item of the news list, no
    more and no fewer: the rows are the items in some order, each with
    its title, rank, links and hot value as they were and with the id
    and the display name of its platform group written in. *)
Theorem raw_rows_keep_every_item (news_list : list Item)
    (order : list string) :
  order_raw_rows news_list order ≡ₚ
    (fun n => set_source (item_sid n)
                (group_name (item_sid n) news_list) n) <$> news_list /\
  row_content <$> order_raw_rows news_list order ≡ₚ
    row_content <$> news_list /\
  length (order_raw_rows news_list order) = length news_list.
Proof.
  pose proof (order_raw_rows_perm news_list order) as Hperm.
  split_and!; [done | |].
  - rewrite Hperm, <- list_fmap_compose. done.
  - by rewrite Hperm, length_fmap.
Qed.






(** ** The graph *)

Section GraphFacts.
Variable insight_llm : list Item -> Outcome string.
Variable parse_reply : string -> Analysis + string.
Variable forum_llm : string -> Outcome string.

Local Abbreviation run := (run_graph insight_llm parse_reply forum_llm).

(** X19.  A run of the graph ends with the no-data page exactly when the
    news list is empty, or when the reply of the insight model could not
    be parsed and the exception has a message; in the second case the
    page says that there is no news although there is.  Neither the
    forum model nor the content of the news plays a part. *)
Theorem graph_no_data_page (merged_list : list Item) :
  page_of (run merged_list) = Some NoDataPage <->
  merged_list = [] \/
  exists content message,
    insight_llm merged_list = Returns content /\
    parse_reply content = inr message /\ message <> "".
Proof.
  unfold run_graph, InsightNode_call, ForumNode_call, ReportNode_call.
  simpl. destruct merged_list as [|n l]; simpl.
  - split; [by left | done].
  - destruct (insight_llm (n :: l)) as [content|e] eqn:Hllm; simpl.
    + destruct (parse_reply content) as [analysis|message] eqn:Hparse; simpl.
      * split; [done|].
        intros [?|(c & m & [= <-] & Hc & _)]; [done|]. congruence.
      * destruct (String.eqb_spec message "") as [->|Hne]; simpl.
        -- split; [done|].
           intros [?|(c & m & [= <-] & Hc & Hm)]; [done|]. congruence.
        -- split; [|done]. intros _. right. by exists content, message.
    + split; [done|]. intros [?|(c & m & ? & _)]; done.
Qed.

(** X20.  When the scrape is not empty and the call of the insight model
    raises, the run ends with an [UnboundLocalError]: the handler of the
    call reads [content], which was never bound, so the node returns no
    error state, the later nodes do not run, no page is made, and the
    exception of the model is lost. *)
Theorem insight_failure_ends_run (file : ConfigFile)
    (sources : list (string * string)) (fetch_data : string -> Response)
    (st : Storage) (t_save t_now : Z) (e : string) :
  SpiderNode_sources (load_config file) = Some sources ->
  scrape sources fetch_data <> [] ->
  insight_llm (scrape sources fetch_data) = Raises e ->
  run_pipeline file fetch_data st t_save t_now insight_llm parse_reply
    forum_llm = Some (Raises "UnboundLocalError").
Proof.
  intros Hsources Hnews Hllm.
  unfold run_pipeline, SpiderNode_run. rewrite Hsources. simpl.
  rewrite SpiderNode_call_merged.
  unfold run_graph, InsightNode_call. simpl.
  destruct (scrape sources fetch_data) as [|n l]; [done|].
  by rewrite Hllm.
Qed.


End GraphFacts.

Lemma insight_failure_ends_run_witness :
  run_pipeline (Loaded None)
    (fun _ => Items [Some {| raw_title := Val "X"; raw_url := Absent;
                             raw_mobileUrl := Absent;
                             raw_hotValue := Absent |}])
    Sample.fresh 1000 1001
    (fun _ => Raises "TimeoutError") (fun _ => inl empty_analysis)
    (fun _ => Returns "") = Some (Raises "UnboundLocalError").
Proof.
  apply (insight_failure_ends_run (fun _ => Raises "TimeoutError")
           (fun _ => inl empty_analysis) (fun _ => Returns "")
           (Loaded None) builtin_sources _ Sample.fresh 1000 1001
           "TimeoutError");
    [reflexivity | vm_compute; discriminate | reflexivity].
Defined.


(** X22.  The topic of the discussion in the two programs.  With a first
    topic both take its name; when [top_topics] is not a list the graph
    discusses the default topic and the second version has no
    discussion; on an empty list the graph falls back to the default
    topic, while the second version indexes the list without looking at
    its length and ends with an [IndexError]. *)
Theorem top_topic_of_empty_list (analysis : Analysis) :
  match run_top_topic analysis with
  | Returns (Some name) =>
      forum_topic analysis = name /\
      exists first rest, top_topics analysis = Some (first :: rest)
  | Returns None =>
      top_topics analysis = None /\ forum_topic analysis = default_topic
  | Raises e =>
      e = "IndexError" /\ top_topics analysis = Some [] /\
      forum_topic analysis = default_topic
  end.
Proof.
  unfold run_top_topic, forum_topic.
  destruct (top_topics analysis) as [[|first rest]|]; simpl.
  - done.
  - split; [done | by exists first, rest].
  - done.
Qed.

(** X23.  The page of a run is made from the current scrape alone: the
    snapshots that earlier runs have stored never reach it, since the
    spider node hands on the scrape as it is.  With no configuration
    file there is no source to scrape, and every run ends with the
    no-data page. *)
Theorem pipeline_page_from_scrape (file : ConfigFile)
    (fetch_data : string -> Response) (st : Storage) (t_save t_now : Z)
    (insight_llm : list Item -> Outcome string)
    (parse_reply : string -> Analysis + string)
    (forum_llm : string -> Outcome string) :
  run_pipeline file fetch_data st t_save t_now insight_llm parse_reply
    forum_llm =
  (sources ← SpiderNode_sources (load_config file);
   Some (run_graph insight_llm parse_reply forum_llm
           (scrape sources fetch_data))) /\
  page_of <$> run_pipeline Missing fetch_data st t_save t_now insight_llm
                parse_reply forum_llm = Some (Some NoDataPage).
Proof.
  assert (forall file',
            run_pipeline file' fetch_data st t_save t_now insight_llm
              parse_reply forum_llm =
            (sources ← SpiderNode_sources (load_config file');
             Some (run_graph insight_llm parse_reply forum_llm
                     (scrape sources fetch_data)))) as Hrun.
  { intros file'. unfold run_pipeline, SpiderNode_run.
    destruct (SpiderNode_sources (load_config file')) as [sources|];
      [|done]. simpl.
    by rewrite SpiderNode_call_merged. }
  split; [apply Hrun|]. by rewrite Hrun.
Qed.
